(** * hyperfox: the inspection service (service.go)

    A shallow embedding of [service.go]: the handlers that list, search and
    load captured transactions and rebuild their request and response
    content, followed by the properties of the service's specification.

    Conventions of the embedding.
    - A Go [string] and a Go [[]byte] are both sequences of bytes; both are
      [string] here (a sequence of 8-bit [ascii]), so the conversions
      [string(b)] and [[]byte(s)] are the identity.
    - [int] and [uint] are 64 bits wide (the amd64 build); they are [Z] with
      the wrap-around written out.
    - A function returning [(T, error)] returns [error + T].
    - The [http.ResponseWriter] is the sequence of calls made on it, in
      order; a handler maps the writer it is given to the extended one.
    - Functions of Go's standard library and of the packages the service
      imports are either modelled from their documented behaviour (when they
      are small: [encoding/hex], [path], [strings], [strconv], the four
      regular expressions) or taken as parameters, the fields of the class
      [World] (the URL parser, the JSON encoder, the store, the order in
      which [range] visits a map). *)

From Stdlib Require Import ZArith Lia Bool Ascii String List.
From Stdlib Require Import Sorting.Permutation DecimalString DecimalPos.
From Corelib Require Import SpecFloat.
From stdpp Require Import base list gmap strings sorting.

Local Open Scope Z_scope.

(** [String.append] computes by [simpl] when its first argument starts with
    a constructor. *)
#[local] Arguments String.append !_ _ / : simpl nomatch.

(** ** Byte strings *)

Module Str.

(** [forallb] and [existsb] over the bytes of a string. *)
Fixpoint all (p : ascii → bool) (s : string) : bool :=
  match s with
  | "" => true
  | String a s' => p a && all p s'
  end.

Fixpoint any (p : ascii → bool) (s : string) : bool :=
  match s with
  | "" => false
  | String a s' => p a || any p s'
  end.

(** The byte whose code is [n], and the code of a byte. *)
Definition byte (n : Z) : ascii := ascii_of_N (Z.to_N n).
Definition code (a : ascii) : Z := Z.of_N (N_of_ascii a).

(** [lo <= a && a <= hi] on bytes. *)
Definition between (lo hi a : ascii) : bool :=
  (code lo <=? code a) && (code a <=? code hi).

(** Any byte but the dot. *)
Definition noDot (c : ascii) : bool := negb (Ascii.eqb c ".").

(** [s] occurs in [t] as a run of consecutive bytes. *)
Definition contains (s t : string) : Prop :=
  ∃ pre post : string, t = pre +:+ s +:+ post.

End Str.

(** Carriage return, line feed and the double quote, which have no escape in
    a string literal. *)
Definition CR : ascii := "013".
Definition LF : ascii := "010".
Definition CRLF : string := String CR (String LF "").
Definition DQUOTE : string := String "034" "".

(** ** Errors *)

(** The [error] values the service can meet. *)
Inductive error : Type :=
  | ErrLength                       (* hex.ErrLength: odd length hex string *)
  | InvalidByteError (b : ascii)    (* hex.InvalidByteError *)
  | ErrNoMoreRows                   (* db.ErrNoMoreRows *)
  | ErrSyntax                       (* strconv.ErrSyntax *)
  | ErrRange                        (* strconv.ErrRange *)
  | errorString (msg : string).     (* errors.New(msg) *)

(** ** encoding/hex *)

Module hex.

Definition hextable : string := "0123456789abcdef".

(** [hextable[n]] for a nibble [n]. *)
Definition digit (table : string) (n : Z) : ascii :=
  match String.get (Z.to_nat n) table with
  | Some c => c
  | None => "000"%char
  end.

(** [hex.EncodeToString]: two digits per byte, high nibble first:
    [dst[j] = hextable[v>>4]; dst[j+1] = hextable[v&0x0f]]. *)
Fixpoint encodeWith (table : string) (src : string) : string :=
  match src with
  | "" => ""
  | String v src' =>
      String (digit table (Z.shiftr (Str.code v) 4))
        (String (digit table (Z.land (Str.code v) 15))
           (encodeWith table src'))
  end.

Definition EncodeToString (src : string) : string := encodeWith hextable src.

(** [fromHexChar]: the value of a hexadecimal digit, of either case. *)
Definition fromHexChar (c : ascii) : option Z :=
  if Str.between "0" "9" c then Some (Str.code c - Str.code "0")
  else if Str.between "a" "f" c then Some (Str.code c - Str.code "a" + 10)
  else if Str.between "A" "F" c then Some (Str.code c - Str.code "A" + 10)
  else None.

(** [hex.Decode], which [hex.DecodeString] runs over the bytes of its
    argument: pairs of digits are consumed from the left; the first
    character that is no digit stops the loop with [InvalidByteError]; a
    last unpaired character gives [ErrLength] (after it was itself checked
    to be a digit). The bytes decoded so far are returned with the error,
    as [src[:n], err]. *)
Fixpoint Decode (src : string) : string * option error :=
  match src with
  | "" => ("", None)
  | String c "" =>
      match fromHexChar c with
      | None => ("", Some (InvalidByteError c))
      | Some _ => ("", Some ErrLength)
      end
  | String c1 (String c2 src') =>
      match fromHexChar c1 with
      | None => ("", Some (InvalidByteError c1))
      | Some a =>
          match fromHexChar c2 with
          | None => ("", Some (InvalidByteError c2))
          | Some b =>
              let '(dst, err) := Decode src' in
              (String (Str.byte (Z.lor (Z.shiftl a 4) b)) dst, err)
          end
      end
  end.

Definition DecodeString (s : string) : string * option error := Decode s.

End hex.

(** The SQL function [hex(X)] of the store, which the loader asks for with
    [db.Raw("hex(body) AS body")]: the upper-case hexadecimal rendering of
    the bytes of a blob. *)
Definition sql_hex (blob : string) : string :=
  hex.encodeWith "0123456789ABCDEF" blob.

(** ** regexp: the four expressions of the service *)

(** The service compiles four expressions, each a character class or a
    repetition of one. A class is its membership test on a byte. The
    expressions read the text rune by rune; a rune below [0x80] is one byte,
    and every byte of a longer rune is outside the listed characters, hence
    inside the two negated classes. Where a longer rune is replaced once,
    this model replaces each of its bytes; the service collapses the runs of
    replacements right after (lines 107 and 280), which gives the same
    text. *)
Module regexp.

Definition isDigit (c : ascii) : bool := Str.between "0" "9" c.
Definition isLower (c : ascii) : bool := Str.between "a" "z" c.
Definition isUpper (c : ascii) : bool := Str.between "A" "Z" c.
Definition isAlnum (c : ascii) : bool := isDigit c || isLower c || isUpper c.

(** The escape [\s]: tab, line feed, form feed, carriage return, space. *)
Definition isSpace (c : ascii) : bool :=
  match c with
  | "009" | "010" | "012" | "013" | " " => true
  | _ => false
  end%char.

(** [reUnsafeChars = `[^0-9a-zA-Z\s\.]`]. *)
Definition reUnsafeChars (c : ascii) : bool :=
  negb (isAlnum c || isSpace c || Ascii.eqb c ".").

(** [reUnsafeFile = `[^0-9a-zA-Z-_]`]: after the range [A-Z], the dash and
    the underscore stand for themselves. *)
Definition reUnsafeFile (c : ascii) : bool :=
  negb (isAlnum c || Ascii.eqb c "-" || Ascii.eqb c "_").

(** The class repeated by [reRepeatedDash = `-+`]. *)
Definition reRepeatedDash (c : ascii) : bool := Ascii.eqb c "-".

(** The class repeated by [reRepeatedBlank = `\s+`]. *)
Definition reRepeatedBlank (c : ascii) : bool := isSpace c.

(** [re.ReplaceAllString(src, repl)] for an expression that is one class:
    every character of the class becomes [repl] (which holds no [$]). *)
Fixpoint ReplaceAllString (class : ascii → bool) (src repl : string) : string :=
  match src with
  | "" => ""
  | String c src' =>
      if class c then repl +:+ ReplaceAllString class src' repl
      else String c (ReplaceAllString class src' repl)
  end.

(** The same for a repeated class [c+]: a match is a maximal run of
    characters of the class, and each run becomes one [repl]. [inrun] says
    that the character before belongs to a run already replaced. *)
Fixpoint replaceRuns (class : ascii → bool) (inrun : bool) (src repl : string)
  : string :=
  match src with
  | "" => ""
  | String c src' =>
      if class c then
        if inrun then replaceRuns class true src' repl
        else repl +:+ replaceRuns class true src' repl
      else String c (replaceRuns class false src' repl)
  end.

Definition ReplaceAllStringPlus (class : ascii → bool) (src repl : string)
  : string :=
  replaceRuns class false src repl.

End regexp.

(** ** strings *)

Module strings.

(** [strings.TrimLeft] and [strings.TrimRight] for a cutset of ASCII
    characters. *)
Fixpoint TrimLeft (s cutset : string) : string :=
  match s with
  | "" => ""
  | String c s' =>
      if Str.any (Ascii.eqb c) cutset then TrimLeft s' cutset else s
  end.

Fixpoint TrimRight (s cutset : string) : string :=
  match s with
  | "" => ""
  | String c s' =>
      let t := TrimRight s' cutset in
      if String.eqb t "" && Str.any (Ascii.eqb c) cutset then ""
      else String c t
  end.

(** [strings.Trim(s, cutset)]. *)
Definition Trim (s cutset : string) : string :=
  TrimRight (TrimLeft s cutset) cutset.

(** [strings.Split(s, sep)] for a separator of one byte: the pieces between
    the separators, one more than there are separators; [Split("", sep)] is
    the one empty piece. *)
Fixpoint Split (s : string) (sep : ascii) : list string :=
  match s with
  | "" => [""]
  | String c s' =>
      if Ascii.eqb c sep then "" :: Split s' sep
      else match Split s' sep with
           | piece :: pieces => String c piece :: pieces
           | [] => [String c ""]
           end
  end.

(** [strings.Cut(s, sep)] for a separator of one byte: the text before and
    after its first occurrence, and whether it occurs. *)
Fixpoint Cut (s : string) (sep : ascii) : string * string * bool :=
  match s with
  | "" => ("", "", false)
  | String c s' =>
      if Ascii.eqb c sep then ("", s', true)
      else let '(before, after, found) := Cut s' sep in
           (String c before, after, found)
  end.

Definition HasPrefix (s pre : string) : bool := String.prefix pre s.

(** [strings.ToLower] on ASCII letters. *)
Definition lower (c : ascii) : ascii :=
  if regexp.isUpper c then Str.byte (Str.code c + 32) else c.

Fixpoint ToLower (s : string) : string :=
  match s with
  | "" => ""
  | String c s' => String (lower c) (ToLower s')
  end.

End strings.

(** ** path *)

Module path.

(** The text after the last slash of [s]; all of [s] when it has none. *)
Fixpoint afterLastSlash (s : string) : string :=
  match s with
  | "" => ""
  | String c s' =>
      if Str.any (Ascii.eqb "/") s' then afterLastSlash s'
      else if Ascii.eqb c "/" then s'
      else s
  end.

(** [path.Base]: the last element of the path; trailing slashes are removed
    first; the empty path gives ["."], a path of slashes only gives ["/"]. *)
Definition Base (p : string) : string :=
  if String.eqb p "" then "."
  else
    let p := strings.TrimRight p "/" in
    let p := afterLastSlash p in
    if String.eqb p "" then "/" else p.

(** [path.Ext]: the suffix that starts at the last dot of the last element
    of the path; empty when that element has no dot. *)
Fixpoint Ext (p : string) : string :=
  match p with
  | "" => ""
  | String c p' =>
      if negb (String.eqb (Ext p') "") then Ext p'
      else if Str.any (Ascii.eqb "/") p' then ""
      else if Ascii.eqb c "." then p
      else ""
  end.

End path.

(** ** strconv, and the integer and floating-point conversions *)

Module strconv.

(** The digit loop of [strconv.ParseUint(s, 10, 64)]: a character that is no
    decimal digit is a syntax error, a value above [1<<64 - 1] is a range
    error. *)
Fixpoint parseDigits (n : Z) (s : string) : error + Z :=
  match s with
  | "" => inr n
  | String c s' =>
      if regexp.isDigit c then
        let n1 := n * 10 + (Str.code c - Str.code "0") in
        if 2 ^ 64 <=? n1 then inl ErrRange else parseDigits n1 s'
      else inl ErrSyntax
  end.

Definition ParseUint (s : string) : error + Z :=
  if String.eqb s "" then inl ErrSyntax else parseDigits 0 s.

End strconv.

(** [int(x)]: the 64-bit two's complement reading of [x]. *)
Definition int (x : Z) : Z := (x + 2 ^ 63) mod 2 ^ 64 - 2 ^ 63.

(** [uint(x)] for an integer [x]: the 64-bit unsigned reading of [x]. *)
Definition uint (x : Z) : Z := x mod 2 ^ 64.

Module math.

(** [float64(n)] for an integer [n]: the nearest binary64 number, ties to
    even. *)
Definition float64 (n : Z) : spec_float := binary_normalize 53 1024 n 0 false.

(** The quotient [x / y] of two float64 numbers. *)
Definition quo (x y : spec_float) : spec_float := SFdiv 53 1024 x y.

(** [math.Ceil]: the least integral value not below [x]; zeros, infinities
    and NaN are returned as they are. A finite number is [±m·2^e]. *)
Definition Ceil (x : spec_float) : spec_float :=
  match x with
  | S754_finite s m e =>
      if 0 <=? e then x
      else
        let n := cond_Zopp s (Zpos m) in
        binary_normalize 53 1024 (- ((- n) / 2 ^ (- e))) 0 s
  | _ => x
  end.

(** [uint(x)] for a float64 [x]: the fraction is discarded. The service
    converts non-negative numbers below [1<<64] only; other arguments, whose
    conversion the language leaves to the implementation, give 0 here. *)
Definition uint_of_float (x : spec_float) : Z :=
  match x with
  | S754_finite false m e =>
      let v := if 0 <=? e then Zpos m * 2 ^ e else Zpos m / 2 ^ (- e) in
      if v <? 2 ^ 64 then v else 0
  | _ => 0
  end.

End math.

(** ** net/url *)

Module url.

(** The fields of [url.URL] that [url.Parse] fills. *)
Record URL : Type := mkURL {
  Scheme : string;
  Opaque : string;
  Host : string;
  Path : string;
  ForceQuery : bool;
  RawQuery : string;
  Fragment : string
}.

(** [getScheme]: the scheme is the run of letters (and, past the first
    character, digits, [+], [-], [.]) in front of the first colon; a colon in
    first position is the error "missing protocol scheme". *)
Fixpoint getSchemeFrom (i : nat) (rawURL rest : string)
  : error + (string * string) :=
  match rest with
  | "" => inr ("", rawURL)
  | String c rest' =>
      if regexp.isLower c || regexp.isUpper c then
        getSchemeFrom (S i) rawURL rest'
      else if regexp.isDigit c || Ascii.eqb c "+" || Ascii.eqb c "-"
              || Ascii.eqb c "." then
        match i with
        | O => inr ("", rawURL)
        | _ => getSchemeFrom (S i) rawURL rest'
        end
      else if Ascii.eqb c ":" then
        match i with
        | O => inl (errorString "missing protocol scheme")
        | _ => inr (String.substring 0 i rawURL, rest')
        end
      else inr ("", rawURL)
  end.

Definition getScheme (rawURL : string) : error + (string * string) :=
  getSchemeFrom 0 rawURL rawURL.

(** [stringContainsCTLByte]: a byte below [0x20], or [0x7f]. *)
Definition isCTL (c : ascii) : bool :=
  (Str.code c <? 32) || (Str.code c =? 127).

(** The number of occurrences of the byte [c]. *)
Fixpoint count (c : ascii) (s : string) : nat :=
  match s with
  | "" => O
  | String d s' => (if Ascii.eqb c d then 1 else 0) + count c s'
  end.

(** Whether [s] ends with the byte [c], and [s] without its last byte. *)
Fixpoint endsWith (c : ascii) (s : string) : bool :=
  match s with
  | "" => false
  | String d "" => Ascii.eqb c d
  | String _ s' => endsWith c s'
  end.

Fixpoint dropLast (s : string) : string :=
  match s with
  | "" => ""
  | String _ "" => ""
  | String d s' => String d (dropLast s')
  end.

(** [url.Parse] for the URLs whose authority is a plain host name and whose
    path and fragment hold no percent escape: the fragment is split off at
    the first [#]; a control character is an error; then come the scheme, the
    query (after the first [?]), the opaque form of a rootless path under a
    scheme, the first path segment of a relative reference (no colon
    allowed), the authority (after [//], up to the next [/]) and the path.
    The authority and the path are taken as they stand: the parser
    proper goes on to split user information off the host, to check the
    port and to decode percent escapes, and fails when those are
    malformed. *)
Definition Parse (rawURL : string) : error + URL :=
  let '(u, frag, _) := strings.Cut rawURL "#" in
  if Str.any isCTL u then
    inl (errorString "net/url: invalid control character in URL")
  else if String.eqb u "*" then inr (mkURL "" "" "" "*" false "" frag)
  else
    match getScheme u with
    | inl err => inl err
    | inr (scheme, rest) =>
        let scheme := strings.ToLower scheme in
        let '(rest, forceQuery, rawQuery) :=
          if endsWith "?" rest && (count "?" rest =? 1)%nat
          then (dropLast rest, true, "")
          else let '(before, after, _) := strings.Cut rest "?" in
               (before, false, after) in
        if negb (strings.HasPrefix rest "/") && negb (String.eqb scheme "")
        then inr (mkURL scheme rest "" "" forceQuery rawQuery frag)
        else if negb (strings.HasPrefix rest "/")
                && Str.any (Ascii.eqb ":") (fst (fst (strings.Cut rest "/")))
        then inl (errorString
                    "first path segment in URL cannot contain colon")
        else
          let '(host, rest) :=
            if (negb (String.eqb scheme "")
                || negb (strings.HasPrefix rest "///"))
               && strings.HasPrefix rest "//"
            then
              let authority := String.substring 2 (String.length rest) rest in
              let '(before, _, found) := strings.Cut authority "/" in
              if found
              then (before,
                    String.substring (String.length before)
                      (String.length authority) authority)
              else (authority, "")
            else ("", rest) in
          inr (mkURL scheme "" host rest forceQuery rawQuery frag)
    end.

End url.

(** ** time, net/http and chi *)

(** A [time.Time], as a count of nanoseconds. *)
Definition Time : Type := Z.

Module http.

(** [http.Header]: the values of each header name, in order. *)
Abbreviation Header := (gmap string (list string)).

Definition StatusOK : Z := 200.
Definition StatusInternalServerError : Z := 500.

(** The table of [http.StatusText]: the registered status codes and their
    texts. *)
Definition statusText : list (Z * string) :=
  [(100, "Continue"); (101, "Switching Protocols"); (102, "Processing");
   (103, "Early Hints");
   (200, "OK"); (201, "Created"); (202, "Accepted");
   (203, "Non-Authoritative Information"); (204, "No Content");
   (205, "Reset Content"); (206, "Partial Content"); (207, "Multi-Status");
   (208, "Already Reported"); (226, "IM Used");
   (300, "Multiple Choices"); (301, "Moved Permanently"); (302, "Found");
   (303, "See Other"); (304, "Not Modified"); (305, "Use Proxy");
   (307, "Temporary Redirect"); (308, "Permanent Redirect");
   (400, "Bad Request"); (401, "Unauthorized"); (402, "Payment Required");
   (403, "Forbidden"); (404, "Not Found"); (405, "Method Not Allowed");
   (406, "Not Acceptable"); (407, "Proxy Authentication Required");
   (408, "Request Timeout"); (409, "Conflict"); (410, "Gone");
   (411, "Length Required"); (412, "Precondition Failed");
   (413, "Request Entity Too Large"); (414, "Request URI Too Long");
   (415, "Unsupported Media Type");
   (416, "Requested Range Not Satisfiable"); (417, "Expectation Failed");
   (418, "I'm a teapot"); (421, "Misdirected Request");
   (422, "Unprocessable Entity"); (423, "Locked");
   (424, "Failed Dependency"); (425, "Too Early");
   (426, "Upgrade Required"); (428, "Precondition Required");
   (429, "Too Many Requests"); (431, "Request Header Fields Too Large");
   (451, "Unavailable For Legal Reasons");
   (500, "Internal Server Error"); (501, "Not Implemented");
   (502, "Bad Gateway"); (503, "Service Unavailable");
   (504, "Gateway Timeout"); (505, "HTTP Version Not Supported");
   (506, "Variant Also Negotiates"); (507, "Insufficient Storage");
   (508, "Loop Detected"); (510, "Not Extended");
   (511, "Network Authentication Required")].

(** [http.StatusText]: the text of a registered code; an unknown code gives
    the empty string. *)
Definition StatusText (code : Z) : string :=
  match List.find (λ entry : Z * string, entry.1 =? code) statusText with
  | Some entry => entry.2
  | None => ""
  end.

(** The request, as far as the handlers read it themselves: the URL
    parameters the router bound ([chi.URLParam]). *)
Record Request : Type := mkRequest {
  URLParams : gmap string string
}.

(** One call on the [http.ResponseWriter]. [ServeContent] is the call
    [http.ServeContent(w, r, name, modtime, content)], which answers the
    request [r] from [content] (conditional and range requests included). *)
Inductive call : Type :=
  | HeaderSet (key value : string)          (* w.Header().Set(key, value) *)
  | WriteHeader (statusCode : Z)            (* w.WriteHeader(statusCode) *)
  | Write (p : string)                      (* w.Write(p) *)
  | ServeContent (r : Request) (name : string) (modtime : Time)
      (content : string).

(** The writer: the calls made on it so far, oldest first. *)
Definition ResponseWriter : Type := list call.

(** The status code a writer's calls fix: that of the first [WriteHeader],
    200 when a [Write] comes first; [None] while neither was called, and when
    [ServeContent] decides it. *)
Fixpoint status (w : ResponseWriter) : option Z :=
  match w with
  | [] => None
  | HeaderSet _ _ :: w' => status w'
  | WriteHeader code :: _ => Some code
  | Write _ :: _ => Some StatusOK
  | ServeContent _ _ _ _ :: _ => None
  end.

(** The contents handed to the writer, by [Write] or [ServeContent]. *)
Fixpoint contents (w : ResponseWriter) : list string :=
  match w with
  | [] => []
  | Write p :: w' => p :: contents w'
  | ServeContent _ _ _ content :: w' => content :: contents w'
  | _ :: w' => contents w'
  end.

End http.

Module chi.

(** [chi.URLParam(r, key)]: the parameter, or the empty string. *)
Definition URLParam (r : http.Request) (key : string) : string :=
  default "" (http.URLParams r !! key).

End chi.

(** ** capture: the stored transactions *)

Module capture.

(** Modelled from the spec: the declaration of [capture.RecordMeta] is in
    package [capture], not in service.go. The fields are those of the
    TransactionMeta of the specification (and the columns the loader
    selects), with the numeric [id] column the listing is ordered by. *)
Record RecordMeta : Type := mkRecordMeta {
  ID : Z;
  UUID : string;
  Origin : string;
  Method : string;
  Status : Z;
  ContentType : string;
  ContentLength : Z;
  Host : string;
  URL : string;
  Path : string;
  Scheme : string;
  DateStart : Time;
  DateEnd : Time;
  TimeTaken : Z;
  Header : http.Header;
  RequestHeader : http.Header
}.

(** Modelled from the spec: [capture.Record], a [RecordMeta] with the
    response body and the request body. *)
Record Record_ : Type := mkRecord {
  Meta : RecordMeta;
  Body : string;
  RequestBody : string
}.

Definition setRequestBody (record : Record_) (body : string) : Record_ :=
  mkRecord (Meta record) (Body record) body.

Definition setBody (record : Record_) (body : string) : Record_ :=
  mkRecord (Meta record) body (RequestBody record).

End capture.

(** ** upper.io/db: conditions and queries *)

Module db.

(** A condition: [db.Cond{key: value}] with one key, or [db.Or(...)]. *)
#[warnings="-register-all"]
Inductive Compound : Type :=
  | Cond (key value : string)
  | Or (conds : list Compound).

(** The method [Or] of a union: the conditions are added to the union. *)
Definition Union_Or (o : Compound) (orConds : list Compound) : Compound :=
  match o with
  | Or conds => Or (conds ++ orConds)
  | Cond _ _ => o
  end.

(** A selected column: a name, or [db.Raw(expr)]. *)
Inductive selector : Type :=
  | Col (name : string)
  | Raw (expr : string).

(** A [db.Result]: the query as the builder methods describe it. *)
Record Result : Type := mkResult {
  conds : list Compound;
  columns : list selector;
  orderBy : list string;
  limit : option Z;
  offset : option Z
}.

Definition Find (conds : list Compound) : Result :=
  mkResult conds [] [] None None.

Definition Select (res : Result) (columns : list selector) : Result :=
  mkResult (conds res) columns (orderBy res) (limit res) (offset res).

Definition OrderBy (res : Result) (fields : list string) : Result :=
  mkResult (conds res) (columns res) fields (limit res) (offset res).

Definition Limit (res : Result) (n : Z) : Result :=
  mkResult (conds res) (columns res) (orderBy res) (Some n) (offset res).

Definition Offset (res : Result) (n : Z) : Result :=
  mkResult (conds res) (columns res) (orderBy res) (limit res) (Some n).

(** [Where] replaces the conditions of the query. *)
Definition Where (res : Result) (conds : list Compound) : Result :=
  mkResult conds (columns res) (orderBy res) (limit res) (offset res).

(** What the service asks of the collection [storage]: the one row of a
    query ([One]), its rows ([All]) and their number ([Count]). Each can
    fail. *)
Record Collection : Type := mkCollection {
  One : Result → error + capture.Record_;
  All : Result → error + list capture.RecordMeta;
  Count : Result → error + Z
}.

End db.

(** ** The service (service.go) *)

Definition serviceBindHost : string := "0.0.0.0".

Definition pageSize : Z := 50.

Record pullResponse : Type := mkPullResponse {
  Requests : list capture.RecordMeta;
  Pages : Z;
  Page : Z
}.

(** The values handed to [replyJSON] as [interface{}]. *)
Inductive interface : Type :=
  | ofRecordMeta (meta : capture.RecordMeta)
  | ofPullResponse (response : pullResponse).

(** What the service takes from outside: the URL parser [url.Parse], the
    JSON encoder [json.Marshal], the order in which a [range] statement
    visits the entries of a header map, and the collection [storage] (a
    package variable set at start-up). Logging is left out. *)
Class World : Type := mkWorld {
  url_Parse : string → error + url.URL;
  json_Marshal : interface → error + string;
  rangeHeader : http.Header → list (string * list string);
  storage : db.Collection
}.

Definition replyCode (w : http.ResponseWriter) (httpCode : Z)
  : http.ResponseWriter :=
  w ++ [http.WriteHeader httpCode; http.Write (http.StatusText httpCode)].

(** [writeOption], a [uint8] of flags. *)
Definition writeNone : Z := 0.
Definition writeWire : Z := 1.
Definition writeEmbed : Z := 2.
Definition writeRequestBody : Z := 4.
Definition writeResponseBody : Z := 8.

(** Lines 106-107 of [replyBinary]: the unsafe characters become dashes,
    runs of dashes become one dash, dashes at both ends are trimmed. *)
Definition safeName (basename : string) : string :=
  let basename := regexp.ReplaceAllString regexp.reUnsafeFile basename "-" in
  strings.Trim
    (regexp.ReplaceAllStringPlus regexp.reRepeatedDash basename "-") "-".

(** Lines 105-110 of [replyBinary]: the file name of a download. *)
Definition basename (u : url.URL) : string :=
  let basename := url.Host u +:+ "-" +:+ path.Base (url.Path u) in
  let basename := safeName basename in
  if String.eqb (path.Ext basename) "" then basename +:+ ".txt"
  else basename.

(** Lines 122-126 of [replyBinary]: one line [k: v] per value, the names in
    the order of the [range] statement, the values of a name in their own
    order. [headers] is the map as that statement visits it. *)
Definition writeHeaders (buf : string) (headers : list (string * list string))
  : string :=
  foldl (λ buf '(k, vv),
           foldl (λ buf v, buf +:+ (k +:+ ": " +:+ v +:+ CRLF)) buf vv)
        buf headers.

Definition replyBinary `{World} (w : http.ResponseWriter) (r : http.Request)
    (record : capture.Record_) (opts : Z) : http.ResponseWriter :=
  let optRequestBody := 0 <? Z.land opts writeRequestBody in
  let optResponseBody := 0 <? Z.land opts writeResponseBody in
  let optWire := 0 <? Z.land opts writeWire in
  let optEmbed := 0 <? Z.land opts writeEmbed in
  if opts =? writeNone then w
  else if optRequestBody && optResponseBody then
    replyCode w http.StatusInternalServerError
  else
    match url_Parse (capture.URL (capture.Meta record)) with
    | inl err => replyCode w http.StatusInternalServerError
    | inr u =>
        let basename := basename u in
        let buf := "" in
        let buf :=
          if optWire then
            let headers : http.Header := ∅ in
            let headers :=
              if optRequestBody
              then capture.RequestHeader (capture.Meta record)
              else headers in
            let headers :=
              if optResponseBody
              then capture.Header (capture.Meta record)
              else headers in
            let buf := writeHeaders buf (rangeHeader headers) in
            buf +:+ CRLF
          else buf in
        if optRequestBody || optResponseBody then
          let buf :=
            if optRequestBody then buf +:+ capture.RequestBody record
            else buf in
          let buf :=
            if optResponseBody then buf +:+ capture.Body record else buf in
          if optEmbed then
            w ++ [http.HeaderSet "Content-Type" "text/plain; charset=utf-8";
                  http.Write buf]
          else
            w ++ [http.HeaderSet "Content-Disposition"
                    ("attachment; filename=" +:+ DQUOTE +:+ basename
                       +:+ DQUOTE);
                  http.ServeContent r "" (capture.DateEnd (capture.Meta record))
                    buf]
        else w
    end.

Definition replyJSON `{World} (w : http.ResponseWriter) (data : interface)
  : http.ResponseWriter :=
  match json_Marshal data with
  | inl err => replyCode w http.StatusInternalServerError
  | inr buf =>
      w ++ [http.HeaderSet "Access-Control-Allow-Origin" "*";
            http.HeaderSet "Content-Type" "application/json";
            http.WriteHeader http.StatusOK;
            http.Write buf]
  end.

(** Lines 177-197 of [getCaptureRecord]: the query for one record, its two
    bodies in hexadecimal. *)
Definition recordQuery (uuid : string) : db.Result :=
  db.Select (db.Find [db.Cond "uuid" uuid])
    [db.Col "uuid"; db.Col "origin"; db.Col "method"; db.Col "status";
     db.Col "content_type"; db.Col "content_length"; db.Col "host";
     db.Col "url"; db.Col "path"; db.Col "scheme"; db.Col "date_start";
     db.Col "date_end"; db.Col "time_taken"; db.Col "header";
     db.Col "request_header";
     db.Raw "hex(body) AS body";
     db.Raw "hex(request_body) AS request_body"].

Definition getCaptureRecord `{World} (uuid : string)
  : error + capture.Record_ :=
  let res := recordQuery uuid in
  match db.One storage res with
  | inl err => inl err
  | inr record =>
      match hex.DecodeString (capture.RequestBody record) with
      | (_, Some err) => inl err
      | (body, None) =>
          let record := capture.setRequestBody record body in
          match hex.DecodeString (capture.Body record) with
          | (_, Some err) => inl err
          | (body, None) => inr (capture.setBody record body)
          end
      end
  end.

Definition recordMetaHandler `{World} (w : http.ResponseWriter)
    (r : http.Request) : http.ResponseWriter :=
  let uuid := chi.URLParam r "uuid" in
  match getCaptureRecord uuid with
  | inl err => replyCode w http.StatusInternalServerError
  | inr record => replyJSON w (ofRecordMeta (capture.Meta record))
  end.

Definition recordHandler `{World} (w : http.ResponseWriter)
    (r : http.Request) (opts : Z) : http.ResponseWriter :=
  let uuid := chi.URLParam r "uuid" in
  match getCaptureRecord uuid with
  | inl err => replyCode w http.StatusInternalServerError
  | inr record => replyBinary w r record opts
  end.

Definition requestContentHandler `{World} w r :=
  recordHandler w r writeRequestBody.
Definition requestWireHandler `{World} w r :=
  recordHandler w r (Z.lor writeRequestBody writeWire).
Definition requestEmbedHandler `{World} w r :=
  recordHandler w r (Z.lor writeRequestBody writeEmbed).
Definition responseContentHandler `{World} w r :=
  recordHandler w r writeResponseBody.
Definition responseWireHandler `{World} w r :=
  recordHandler w r (Z.lor writeResponseBody writeWire).
Definition responseEmbedHandler `{World} w r :=
  recordHandler w r (Z.lor writeResponseBody writeEmbed).

(** Lines 303-311 of [capturesHandler]: the condition of one term. *)
Definition termCond (term : string) : db.Compound :=
  db.Or
    [db.Cond "host LIKE" ("%" +:+ term +:+ "%");
     db.Cond "origin LIKE" ("%" +:+ term +:+ "%");
     db.Cond "path LIKE" ("%" +:+ term +:+ "%");
     db.Cond "content_type LIKE" ("%" +:+ term +:+ "%");
     db.Cond "method" term;
     db.Cond "scheme" term;
     db.Cond "status" term].

(** Lines 299-313 of [capturesHandler]: [conds] after the loop over the
    terms. *)
Definition searchConds (terms : list string) : db.Compound :=
  foldl (λ conds term, db.Union_Or conds [termCond term]) (db.Or []) terms.

(** Lines 279-280 of [capturesHandler]: the query string made safe. *)
Definition sanitizeQuery (q : string) : string :=
  let q := regexp.ReplaceAllString regexp.reUnsafeChars q " " in
  regexp.ReplaceAllStringPlus regexp.reRepeatedBlank q " ".

(** Lines 283-290 of [capturesHandler]: the page asked for, 1 when the
    parameter is missing, does not parse or is 0. *)
Definition requestedPage (r : http.Request) : Z :=
  let page :=
    match strconv.ParseUint (chi.URLParam r "page") with
    | inr page => uint page
    | inl _ => 0
    end in
  if page <? 1 then 1 else page.

(** Lines 277-316 of [capturesHandler]: the query of the listing. *)
Definition capturesQuery (r : http.Request) : db.Result :=
  let q := chi.URLParam r "q" in
  let q := sanitizeQuery q in
  let res :=
    db.Offset (db.Limit (db.OrderBy (db.Find []) ["id"]) pageSize)
      (int (pageSize * int (uint (requestedPage r - 1)))) in
  if negb (String.eqb q "") then
    let terms := strings.Split q " " in
    db.Where res [searchConds terms]
  else res.

(** Line 327 of [capturesHandler]:
    [uint(math.Ceil(float64(c) / float64(pageSize)))]. *)
Definition totalPages (c : Z) : Z :=
  math.uint_of_float
    (math.Ceil (math.quo (math.float64 c) (math.float64 pageSize))).

(** [capturesHandler] serves paginated requests. *)
Definition capturesHandler `{World} (w : http.ResponseWriter)
    (r : http.Request) : http.ResponseWriter :=
  let res := capturesQuery r in
  match db.All storage res with
  | inl err => replyCode w http.StatusInternalServerError
  | inr requests =>
      let pages :=
        match db.Count storage res with
        | inr c => totalPages c
        | inl _ => 0
        end in
      replyJSON w
        (ofPullResponse (mkPullResponse requests pages (requestedPage r)))
  end.

(** The routes of [startServices], all of them [GET]: [/records],
    [/records/{uuid}], and under the latter [/request], [/request/raw],
    [/request/embed], [/response], [/response/raw], [/response/embed]. *)
Inductive route : Type :=
  | GET_records
  | GET_record
  | GET_request
  | GET_request_raw
  | GET_request_embed
  | GET_response
  | GET_response_raw
  | GET_response_embed.

Definition handler `{World} (endpoint : route)
  : http.ResponseWriter → http.Request → http.ResponseWriter :=
  match endpoint with
  | GET_records => capturesHandler
  | GET_record => recordMetaHandler
  | GET_request => requestContentHandler
  | GET_request_raw => requestWireHandler
  | GET_request_embed => requestEmbedHandler
  | GET_response => responseContentHandler
  | GET_response_raw => responseWireHandler
  | GET_response_embed => responseEmbedHandler
  end.

(** The fetch an endpoint starts with fails: the rows of the listing, or
    the load of the transaction. *)
Definition fetchFails `{World} (endpoint : route) (r : http.Request) : Prop :=
  match endpoint with
  | GET_records => ∃ err, db.All storage (capturesQuery r) = inl err
  | _ => ∃ err, getCaptureRecord (chi.URLParam r "uuid") = inl err
  end.

(** ** The store as a table of records *)

(** Modelled from the spec: the store is outside service.go. The
    specification treats it as a relational collection with equality,
    [LIKE], ordering, limit and offset, and count; this is that collection
    over a list of rows, and it never fails but for a missing row. *)
Module table.

(** The text of a column of a row. *)
Definition column (name : string) (m : capture.RecordMeta) : option string :=
  if String.eqb name "id" then
    Some (NilZero.string_of_int (Z.to_int (capture.ID m)))
  else if String.eqb name "uuid" then Some (capture.UUID m)
  else if String.eqb name "origin" then Some (capture.Origin m)
  else if String.eqb name "method" then Some (capture.Method m)
  else if String.eqb name "status" then
    Some (NilZero.string_of_int (Z.to_int (capture.Status m)))
  else if String.eqb name "content_type" then Some (capture.ContentType m)
  else if String.eqb name "host" then Some (capture.Host m)
  else if String.eqb name "url" then Some (capture.URL m)
  else if String.eqb name "path" then Some (capture.Path m)
  else if String.eqb name "scheme" then Some (capture.Scheme m)
  else None.

(** [text LIKE pattern], case-sensitive as the specification has it: [%]
    stands for any run of characters, [_] for any one character, every other
    character for itself. [likeAny] tries the rest of the pattern at every
    suffix of the text. *)
Fixpoint like (pattern : string) (text : string) : bool :=
  match pattern with
  | "" => String.eqb text ""
  | String p pattern' =>
      if Ascii.eqb p "%" then
        (fix likeAny (text : string) : bool :=
           like pattern' text
           || match text with
              | "" => false
              | String _ text' => likeAny text'
              end) text
      else
        match text with
        | "" => false
        | String c text' =>
            (Ascii.eqb p "_" || Ascii.eqb p c) && like pattern' text'
        end
  end.

(** No character of the term is a wildcard of [LIKE]. *)
Definition literally (term : string) : Prop :=
  Str.all (λ c, negb (Ascii.eqb c "%" || Ascii.eqb c "_")) term = true.

(** A condition on a row. The key of a [db.Cond] is a column name, for
    equality, or a column name and an operator. A union holds when one of its
    members does; an empty union restricts nothing. *)
Fixpoint holds (c : db.Compound) (m : capture.RecordMeta) : bool :=
  match c with
  | db.Cond key value =>
      let '(name, operator, _) := strings.Cut key " " in
      match column name m with
      | None => false
      | Some text =>
          if String.eqb operator "" then String.eqb text value
          else if String.eqb operator "LIKE" then like value text
          else false
      end
  | db.Or [] => true
  | db.Or conds => existsb (λ c', holds c' m) conds
  end.

(** The rows of a query before ordering, limit and offset: those on which
    all its conditions hold. *)
Definition selected (res : db.Result) (rows : list capture.Record_)
  : list capture.Record_ :=
  List.filter (λ row, forallb (λ c, holds c (capture.Meta row)) (db.conds res))
    rows.

Definition byID (a b : capture.Record_) : Prop :=
  capture.ID (capture.Meta a) ≤ capture.ID (capture.Meta b).

#[global] Instance byID_dec : RelDecision byID :=
  λ a b, decide (capture.ID (capture.Meta a) ≤ capture.ID (capture.Meta b)).

(** [ORDER BY id] when the query asks for it. *)
Definition ordered (res : db.Result) (rows : list capture.Record_)
  : list capture.Record_ :=
  match db.orderBy res with
  | [field] => if String.eqb field "id" then merge_sort byID rows else rows
  | _ => rows
  end.

(** [LIMIT] and [OFFSET]; a negative number counts as zero. *)
Definition window (res : db.Result) (rows : list capture.Record_)
  : list capture.Record_ :=
  let rows :=
    match db.offset res with
    | Some n => drop (Z.to_nat n) rows
    | None => rows
    end in
  match db.limit res with
  | Some n => take (Z.to_nat n) rows
  | None => rows
  end.

Definition selects (res : db.Result) (s : db.selector) : bool :=
  match db.columns res with
  | [] => true
  | columns =>
      existsb (λ s', match s, s' with
                     | db.Col a, db.Col b => String.eqb a b
                     | db.Raw a, db.Raw b => String.eqb a b
                     | _, _ => false
                     end) columns
  end.

(** The body columns as the query selects them: as they are, through
    [hex(...)], or not at all. *)
Definition bodyColumn (res : db.Result) (name : string) (blob : string)
  : string :=
  if selects res (db.Raw ("hex(" +:+ name +:+ ") AS " +:+ name))
  then sql_hex blob
  else if selects res (db.Col name) then blob
  else "".

Definition scan (res : db.Result) (row : capture.Record_) : capture.Record_ :=
  capture.mkRecord (capture.Meta row)
    (bodyColumn res "body" (capture.Body row))
    (bodyColumn res "request_body" (capture.RequestBody row)).

Definition collection (rows : list capture.Record_) : db.Collection :=
  db.mkCollection
    (λ res, match window res (ordered res (selected res rows)) with
            | [] => inl ErrNoMoreRows
            | row :: _ => inr (scan res row)
            end)
    (λ res, inr (capture.Meta <$> window res (ordered res (selected res rows))))
    (λ res, inr (Z.of_nat (length (selected res rows)))).

End table.

(** ** Worlds for the examples *)

Module example.

(** A stand-in for [json.Marshal]: the identifiers of the records and the
    page numbers; it never fails. *)
Definition quoted (s : string) : string := DQUOTE +:+ s +:+ DQUOTE.

Definition number (n : Z) : string := NilZero.string_of_int (Z.to_int n).

Definition marshal (data : interface) : error + string :=
  match data with
  | ofRecordMeta meta => inr ("{" +:+ quoted (capture.UUID meta) +:+ "}")
  | ofPullResponse response =>
      inr ("{[" +:+ String.concat ","
                      ((λ m, number (capture.ID m)) <$> Requests response)
             +:+ "]," +:+ number (Pages response)
             +:+ "," +:+ number (Page response) +:+ "}")
  end.

(** The world around a store: the URL parser of plain URLs, and [range]
    visiting a map in the order of its list of entries. *)
Definition worldOf (store : db.Collection) : World :=
  mkWorld url.Parse marshal map_to_list store.

(** The world of a store that holds [rows]. *)
Definition world (rows : list capture.Record_) : World :=
  worldOf (table.collection rows).

(** A store whose queries run but whose count fails. *)
Definition countFails (requests : list capture.RecordMeta) : db.Collection :=
  db.mkCollection
    (λ _, inl ErrNoMoreRows)
    (λ _, inr requests)
    (λ _, inl (errorString "database is locked")).

(** A store whose every query fails. *)
Definition storeDown : db.Collection :=
  db.mkCollection
    (λ _, inl (errorString "database is locked"))
    (λ _, inl (errorString "database is locked"))
    (λ _, inl (errorString "database is locked")).

(** A store that answers every query with the one [record], as it stands. *)
Definition only (record : capture.Record_) : db.Collection :=
  db.mkCollection
    (λ _, inr record)
    (λ _, inr [capture.Meta record])
    (λ _, inr 1).

(** A captured [GET] of [rawURL] with one request header of two values. *)
Definition get (id : Z) (rawURL : string) (requestBody body : string)
  : capture.Record_ :=
  capture.mkRecord
    (capture.mkRecordMeta id ("uuid-" +:+ number id) "10.0.0.1:5000" "GET" 200
       "text/html" (Z.of_nat (String.length body)) "a.b" rawURL "/c" "http"
       1000 2000 1000
       {["Content-Type" := ["text/html"]]}
       {["X-Test" := ["1"; "2"]]})
    body requestBody.

(** The rows with the identifiers [n, n-1, ..., 1]. *)
Fixpoint rows (n : nat) : list capture.Record_ :=
  match n with
  | O => []
  | S n' => get (Z.of_nat n) "http://a.b/c?d=e" "" "ok" :: rows n'
  end.

(** A row whose response body is not hexadecimal text of even length. *)
Definition corrupt : capture.Record_ :=
  capture.mkRecord (capture.Meta (get 1 "http://a.b/c?d=e" "" "")) "4a4" "4a".

(** A request with the given URL parameters. *)
Definition request (params : list (string * string)) : http.Request :=
  http.mkRequest (list_to_map params).

End example.

(** ** The words of the specification *)

Module Spec.

(** The characters the sanitizer of the query keeps, [0-9a-zA-Z.], and the
    others, which make a gap: the characters it removes (those outside
    [0-9a-zA-Z\s.]) and the whitespace. *)
Definition kept (c : ascii) : bool := regexp.isAlnum c || Ascii.eqb c ".".
Definition gap (c : ascii) : bool := negb (kept c).

(** A string cut into runs, each marked as a gap or not. *)
Definition joined (rs : list (bool * string)) : string :=
  foldr (λ (r : bool * string) rest, r.2 +:+ rest) "" rs.

(** The runs are the maximal ones: none is empty, the characters of a run
    are all gap characters or all kept ones, as it is marked, and a gap and
    a run of kept characters alternate. *)
Fixpoint maximal (rs : list (bool * string)) : Prop :=
  match rs with
  | [] => True
  | (g, run) :: rs' =>
      run ≠ ""
      ∧ Str.all (λ c, Bool.eqb (gap c) g) run = true
      ∧ match rs' with
        | (g', _) :: _ => g' = negb g
        | [] => True
        end
      ∧ maximal rs'
  end.

(** A single space where a gap stood, the kept runs as they are. *)
Definition render (rs : list (bool * string)) : string :=
  foldr (λ (r : bool * string) rest,
           (if r.1 then " " else r.2) +:+ rest) "" rs.

(** The maximal runs of [q]. *)
Fixpoint runs (q : string) : list (bool * string) :=
  match q with
  | "" => []
  | String c q' =>
      match runs q' with
      | (g, run) :: rs =>
          if Bool.eqb (gap c) g then (g, String c run) :: rs
          else (gap c, String c "") :: (g, run) :: rs
      | [] => [(gap c, String c "")]
      end
  end.


(** The fields a term is looked for in, and the fields it is compared
    with: a record matches a term when the host, the origin, the path or the
    content type contains it, or the method, the scheme or the status is
    equal to it. *)
Definition matchesTerm (term : string) (m : capture.RecordMeta) : Prop :=
  Str.contains term (capture.Host m)
  ∨ Str.contains term (capture.Origin m)
  ∨ Str.contains term (capture.Path m)
  ∨ Str.contains term (capture.ContentType m)
  ∨ capture.Method m = term
  ∨ capture.Scheme m = term
  ∨ NilZero.string_of_int (Z.to_int (capture.Status m)) = term.

End Spec.

(** ** Shapes of strings and of stored texts *)

Module Shape.

(** The characters of a file name: [0-9a-zA-Z], the dash, the underscore
    (those [reUnsafeFile] leaves alone). *)
Definition fileChar (c : ascii) : bool :=
  regexp.isAlnum c || Ascii.eqb c "-" || Ascii.eqb c "_".

(** The characters of a sanitized query: [0-9a-zA-Z.] and the space. *)
Definition queryChar (c : ascii) : bool := Spec.kept c || Ascii.eqb c " ".

(** No two characters of the class stand side by side. *)
Fixpoint noRepeat (class : ascii → bool) (s : string) : bool :=
  match s with
  | "" => true
  | String c s' =>
      match s' with
      | "" => true
      | String d _ => negb (class c && class d)
      end && noRepeat class s'
  end.

(** The first, the last character is of the class. *)
Definition startsIn (class : ascii → bool) (s : string) : bool :=
  match s with
  | "" => false
  | String c _ => class c
  end.

Fixpoint endsIn (class : ascii → bool) (s : string) : bool :=
  match s with
  | "" => false
  | String c "" => class c
  | String _ s' => endsIn class s'
  end.

(** A hexadecimal digit of either case; a text of an even number of them. *)
Definition isHex (c : ascii) : bool :=
  match hex.fromHexChar c with
  | Some _ => true
  | None => false
  end.

Definition hexText (s : string) : bool :=
  Nat.even (String.length s) && Str.all isHex s.

(** The characters of [s] that are of the class, in their order. *)
Fixpoint restrict (class : ascii → bool) (s : string) : string :=
  match s with
  | "" => ""
  | String c s' =>
      if class c then String c (restrict class s') else restrict class s'
  end.

(** The characters of a file name but the dash: [0-9a-zA-Z_]. *)
Definition nameChar (c : ascii) : bool := regexp.isAlnum c || Ascii.eqb c "_".

(** The lines [k: v] of a header collection as a [range] statement visits
    it, one per value. *)
Definition headerLines (headers : list (string * list string)) : list string :=
  flat_map (λ '(k, vv), (λ v, k +:+ ": " +:+ v +:+ CRLF) <$> vv) headers.

(** The two ways in which [replyBinary] hands a content to the client: as
    inline text, and as a download of a given name. *)
Definition inline (content : string) : list http.call :=
  [http.HeaderSet "Content-Type" "text/plain; charset=utf-8";
   http.Write content].

Definition attachment (r : http.Request) (name : string) (modtime : Time)
    (content : string) : list http.call :=
  [http.HeaderSet "Content-Disposition"
     ("attachment; filename=" +:+ DQUOTE +:+ name +:+ DQUOTE);
   http.ServeContent r "" modtime content].

End Shape.

(** ** The routes as [startServices] declares them *)

(** Lines 337-358 of [startServices]: [r.Route(pattern, ...)] with the
    routes declared inside it, and [r.Get(pattern, handler)]. *)
#[warnings="-register-all"]
Inductive Routes : Type :=
  | Get (pattern : string) (endpoint : route)
  | Route (pattern : string) (sub : list Routes).

Definition startServices : list Routes :=
  [Route "/records"
     [Get "/" GET_records;
      Route "/{uuid}"
        [Get "/" GET_record;
         Route "/request"
           [Get "/" GET_request;
            Get "/raw" GET_request_raw;
            Get "/embed" GET_request_embed];
         Route "/response"
           [Get "/" GET_response;
            Get "/raw" GET_response_raw;
            Get "/embed" GET_response_embed]]]].

(** The patterns from the root down to each [Get], with its endpoint. *)
Fixpoint registered (above : list string) (rs : Routes)
  : list (list string * route) :=
  match rs with
  | Get pattern endpoint => [(above ++ [pattern], endpoint)]
  | Route pattern sub =>
      flat_map (registered (above ++ [pattern])) sub
  end.

(** The names of the placeholders [{name}] of a pattern. [inside] is the
    name being read, when a brace is open. *)
Fixpoint placeholdersFrom (inside : option string) (pattern : string)
  : list string :=
  match pattern with
  | "" => []
  | String c pattern' =>
      match inside with
      | None =>
          if Ascii.eqb c "{" then placeholdersFrom (Some "") pattern'
          else placeholdersFrom None pattern'
      | Some name =>
          if Ascii.eqb c "}" then name :: placeholdersFrom None pattern'
          else placeholdersFrom (Some (name +:+ String c "")) pattern'
      end
  end.

Definition placeholders (patterns : list string) : list string :=
  flat_map (placeholdersFrom None) patterns.

(** * Properties *)

(** ** Byte strings *)

Module StrFacts.

Lemma app_nil_r (s : string) : s +:+ "" = s.
Proof. induction s as [|a s IH]; simpl; [done | by rewrite IH]. Qed.

Lemma app_assoc (s t u : string) : (s +:+ t) +:+ u = s +:+ t +:+ u.
Proof. induction s as [|a s IH]; simpl; [done | by rewrite IH]. Qed.

Lemma all_app p s t : Str.all p (s +:+ t) = Str.all p s && Str.all p t.
Proof.
  induction s as [|a s IH]; simpl; [done|].
  by rewrite IH, andb_assoc.
Qed.

Lemma all_impl (p q : ascii → bool) s :
  (∀ a, p a = true → q a = true) → Str.all p s = true → Str.all q s = true.
Proof.
  intros Hpq. induction s as [|a s IH]; simpl; [done|].
  intros [Ha Hs]%andb_true_iff. rewrite (Hpq _ Ha). simpl. auto.
Qed.

End StrFacts.

(** A proof by cases on the eight bits of a byte. *)
Ltac by_byte c := destruct c as [[] [] [] [] [] [] [] []]; vm_compute; try done.

(** ** The hexadecimal encoding of the bodies *)

Section Hex.

(** Two digits of either table decode to the byte they were written for. *)
Lemma Decode_digits_lower (v : ascii) (rest : string) :
  hex.Decode (String (hex.digit hex.hextable (Z.shiftr (Str.code v) 4))
                (String (hex.digit hex.hextable (Z.land (Str.code v) 15)) rest))
  = let '(dst, err) := hex.Decode rest in (String v dst, err).
Proof. destruct v as [[] [] [] [] [] [] [] []]; reflexivity. Qed.

Lemma Decode_digits_upper (v : ascii) (rest : string) :
  hex.Decode (String (hex.digit "0123456789ABCDEF" (Z.shiftr (Str.code v) 4))
                (String (hex.digit "0123456789ABCDEF" (Z.land (Str.code v) 15))
                   rest))
  = let '(dst, err) := hex.Decode rest in (String v dst, err).
Proof. destruct v as [[] [] [] [] [] [] [] []]; reflexivity. Qed.

Lemma Decode_EncodeToString (payload : string) :
  hex.Decode (hex.EncodeToString payload) = (payload, None).
Proof.
  unfold hex.EncodeToString.
  induction payload as [|v payload IH]; [reflexivity|].
  change (hex.encodeWith hex.hextable (String v payload))
    with (String (hex.digit hex.hextable (Z.shiftr (Str.code v) 4))
            (String (hex.digit hex.hextable (Z.land (Str.code v) 15))
               (hex.encodeWith hex.hextable payload))).
  by rewrite Decode_digits_lower, IH.
Qed.

Lemma Decode_sql_hex (blob : string) :
  hex.Decode (sql_hex blob) = (blob, None).
Proof.
  unfold sql_hex.
  induction blob as [|v blob IH]; [reflexivity|].
  change (hex.encodeWith "0123456789ABCDEF" (String v blob))
    with (String (hex.digit "0123456789ABCDEF" (Z.shiftr (Str.code v) 4))
            (String (hex.digit "0123456789ABCDEF" (Z.land (Str.code v) 15))
               (hex.encodeWith "0123456789ABCDEF" blob))).
  by rewrite Decode_digits_upper, IH.
Qed.

(** The encoding doubles the length: it is never of odd length. *)
Lemma length_encodeWith (table payload : string) :
  String.length (hex.encodeWith table payload)
  = (2 * String.length payload)%nat.
Proof. induction payload as [|v payload IH]; simpl; [done | lia]. Qed.

End Hex.

(** ** The loader *)

Section Loader.
Context `{W : World}.

(** A failure of the store is the failure of the load. *)
Lemma getCaptureRecord_store_error (uuid : string) (err : error) :
  db.One storage (recordQuery uuid) = inl err →
  getCaptureRecord uuid = inl err.
Proof. intros HOne. unfold getCaptureRecord. by rewrite HOne. Qed.

(** A row whose two bodies came back as [hex(...)] of the stored bytes loads
    as the record of those bytes. *)
Lemma getCaptureRecord_decoded (uuid : string) (meta : capture.RecordMeta)
    (body requestBody : string) :
  db.One storage (recordQuery uuid)
  = inr (capture.mkRecord meta (sql_hex body) (sql_hex requestBody)) →
  getCaptureRecord uuid = inr (capture.mkRecord meta body requestBody).
Proof.
  intros HOne. unfold getCaptureRecord, hex.DecodeString. rewrite HOne.
  simpl. rewrite Decode_sql_hex.
  unfold capture.setRequestBody. simpl.
  by rewrite Decode_sql_hex.
Qed.

(** A load that succeeds decoded both bodies in full. *)
Lemma getCaptureRecord_inr (uuid : string) (loaded : capture.Record_) :
  getCaptureRecord uuid = inr loaded →
  ∃ record,
    db.One storage (recordQuery uuid) = inr record
    ∧ capture.Meta loaded = capture.Meta record
    ∧ hex.DecodeString (capture.RequestBody record)
      = (capture.RequestBody loaded, None)
    ∧ hex.DecodeString (capture.Body record) = (capture.Body loaded, None).
Proof.
  unfold getCaptureRecord.
  destruct (db.One storage (recordQuery uuid)) as [err|record]; [done|].
  destruct (hex.DecodeString (capture.RequestBody record))
    as [requestBody [err|]] eqn:Hrequest; [done|].
  simpl.
  destruct (hex.DecodeString (capture.Body record))
    as [body [err|]] eqn:Hbody; [done|].
  intros [= <-]. exists record. simpl. by rewrite Hrequest, Hbody.
Qed.

(** C6: a row whose two body fields hold the hexadecimal text of two byte
    sequences loads, through the decode step of the loader (lines 203-217),
    as the record of exactly those byte sequences, whatever they are (empty,
    one byte, any length), and whether the text was written with the
    lower-case digits of [hex.EncodeToString] or with the upper-case digits
    of the store's [hex(...)], which the loader asks for (lines 195-196). *)
Theorem getCaptureRecord_roundtrip (uuid : string) (meta : capture.RecordMeta)
    (body requestBody text requestText : string) :
  text = hex.EncodeToString body ∨ text = sql_hex body →
  requestText = hex.EncodeToString requestBody
  ∨ requestText = sql_hex requestBody →
  db.One storage (recordQuery uuid)
  = inr (capture.mkRecord meta text requestText) →
  getCaptureRecord uuid = inr (capture.mkRecord meta body requestBody).
Proof.
  intros Htext Hrequest HOne.
  assert (Hbody : hex.DecodeString text = (body, None)).
  { unfold hex.DecodeString.
    destruct Htext as [-> | ->];
      [apply Decode_EncodeToString | apply Decode_sql_hex]. }
  assert (HrequestBody : hex.DecodeString requestText = (requestBody, None)).
  { unfold hex.DecodeString.
    destruct Hrequest as [-> | ->];
      [apply Decode_EncodeToString | apply Decode_sql_hex]. }
  unfold getCaptureRecord. rewrite HOne.
  cbn [capture.RequestBody]. rewrite HrequestBody.
  cbn [capture.setRequestBody capture.Body capture.Meta]. rewrite Hbody.
  reflexivity.
Qed.

(** C7: when the hexadecimal text of the request body or of the response
    body of the stored row does not decode, the loader returns an error, the
    error of the decoding, and no record. *)
Theorem getCaptureRecord_corrupt (uuid : string) (record : capture.Record_) :
  db.One storage (recordQuery uuid) = inr record →
  snd (hex.DecodeString (capture.RequestBody record)) ≠ None
  ∨ snd (hex.DecodeString (capture.Body record)) ≠ None →
  ∃ err,
    getCaptureRecord uuid = inl err
    ∧ (snd (hex.DecodeString (capture.RequestBody record)) = Some err
       ∨ snd (hex.DecodeString (capture.Body record)) = Some err).
Proof.
  intros HOne Hcorrupt. unfold getCaptureRecord. rewrite HOne.
  destruct (hex.DecodeString (capture.RequestBody record))
    as [requestBody [err|]] eqn:Hrequest.
  { exists err. auto. }
  simpl in *.
  destruct (hex.DecodeString (capture.Body record))
    as [body [err|]] eqn:Hbody.
  { exists err. auto. }
  simpl in Hcorrupt. by destruct Hcorrupt.
Qed.

End Loader.

(** The loader over the table: the bodies of the first row with the
    identifier come back as they were stored. *)
Lemma getCaptureRecord_table (rows : list capture.Record_) (uuid : string)
    (row : capture.Record_) :
  table.selected (recordQuery uuid) rows = row :: [] →
  @getCaptureRecord (example.world rows) uuid = inr row.
Proof.
  intros Hsel. destruct row as [meta body requestBody].
  apply (@getCaptureRecord_decoded (example.world rows)).
  simpl. unfold table.ordered, table.window. simpl. by rewrite Hsel.
Qed.

(** ** The file name of a download *)

Section Filename.

(** A character the sanitizer lets through is no dot; neither is a dash. *)
Lemma reUnsafeFile_noDot (c : ascii) :
  regexp.reUnsafeFile c = false → Str.noDot c = true.
Proof. by_byte c. Qed.

Lemma ReplaceAllString_all (class keep : ascii → bool) (src repl : string) :
  (∀ c, class c = false → keep c = true) →
  Str.all keep repl = true →
  Str.all keep (regexp.ReplaceAllString class src repl) = true.
Proof.
  intros Hclass Hrepl. induction src as [|c src IH]; simpl; [done|].
  destruct (class c) eqn:Hc.
  - by rewrite StrFacts.all_app, Hrepl, IH.
  - simpl. by rewrite (Hclass _ Hc), IH.
Qed.

Lemma replaceRuns_all (class keep : ascii → bool) (inrun : bool)
    (src repl : string) :
  Str.all keep src = true →
  Str.all keep repl = true →
  Str.all keep (regexp.replaceRuns class inrun src repl) = true.
Proof.
  intros Hsrc Hrepl. revert inrun Hsrc.
  induction src as [|c src IH]; intros inrun; simpl; [done|].
  intros [Hc Hsrc]%andb_true_iff.
  destruct (class c), inrun; simpl;
    rewrite ?StrFacts.all_app, ?Hrepl, ?Hc, ?IH; done.
Qed.

Lemma TrimLeft_all (keep : ascii → bool) (s cutset : string) :
  Str.all keep s = true → Str.all keep (strings.TrimLeft s cutset) = true.
Proof.
  induction s as [|c s IH]; simpl; [done|].
  intros Hall. destruct (Str.any (Ascii.eqb c) cutset); [|done].
  apply IH. by apply andb_true_iff in Hall as [_ ?].
Qed.

Lemma TrimRight_all (keep : ascii → bool) (s cutset : string) :
  Str.all keep s = true → Str.all keep (strings.TrimRight s cutset) = true.
Proof.
  induction s as [|c s IH]; simpl; [done|].
  intros [Hc Hs]%andb_true_iff.
  destruct (_ && _); simpl; [done|]. by rewrite Hc, IH.
Qed.

(** No dot survives the sanitizer. *)
Lemma safeName_noDot (name : string) : Str.all Str.noDot (safeName name) = true.
Proof.
  unfold safeName, strings.Trim, regexp.ReplaceAllStringPlus.
  apply TrimRight_all, TrimLeft_all, replaceRuns_all; [|done].
  apply ReplaceAllString_all; [apply reUnsafeFile_noDot | done].
Qed.

(** A name without a dot has no extension. *)
Lemma Ext_noDot (name : string) :
  Str.all Str.noDot name = true → path.Ext name = "".
Proof.
  induction name as [|c name IH]; simpl; [done|].
  intros [Hc Hname]%andb_true_iff. rewrite (IH Hname). simpl.
  destruct (Str.any _ name); [done|].
  unfold Str.noDot in Hc. by destruct (Ascii.eqb c ".").
Qed.

(** Hence the test of line 108 always succeeds: every download is named
    [<safe name>.txt]. *)
Lemma basename_txt (u : url.URL) :
  basename u
  = safeName (url.Host u +:+ "-" +:+ path.Base (url.Path u)) +:+ ".txt".
Proof.
  unfold basename. by rewrite (Ext_noDot _ (safeName_noDot _)).
Qed.

(** C5, as the code has it: the URL [http://a.b/c?d=e] has the host [a.b]
    and the path [/c], and its download is named [a-b-c.txt]: the dot of the
    host is replaced by a dash like every character outside [0-9a-zA-Z_-],
    and [.txt] is appended. The raw candidate [a.b--c] is sanitized to
    [a-b-c]: the dot is replaced, and the repeated dashes become one. *)
Theorem basename_example :
  (∃ u, url.Parse "http://a.b/c?d=e" = inr u
        ∧ url.Host u = "a.b" ∧ url.Path u = "/c"
        ∧ basename u = "a-b-c.txt")
  ∧ safeName "a.b--c" = "a-b-c".
Proof. split; [eexists; repeat split|]; reflexivity. Qed.

(** C5 as it is stated fails: the name is not [a.b-c.txt], and [a.b--c] is
    not sanitized to [a.b-c]. *)
Lemma basename_example_keeps_no_dot :
  basename (url.mkURL "http" "" "a.b" "/c" false "d=e" "") ≠ "a.b-c.txt"
  ∧ safeName "a.b--c" ≠ "a.b-c".
Proof. split; by vm_compute. Qed.

End Filename.

(** ** The content reconstructor *)

Section Reconstructor.
Context `{W : World}.

(** A [range] statement visits every entry of the map once, in some
    order. *)
Hypothesis range_entries :
  ∀ headers : http.Header, rangeHeader headers ≡ₚ map_to_list headers.

(** A flag that is set makes the option set non-empty. *)
Lemma flag_not_none (opts flag : Z) :
  0 < Z.land opts flag → (opts =? writeNone) = false.
Proof.
  intros Hflag. apply Z.eqb_neq. intros ->.
  unfold writeNone in Hflag. rewrite Z.land_0_l in Hflag. lia.
Qed.

(** The header block: the lines of the values of each name, name after
    name. *)
Lemma writeHeaders_lines (buf : string) (headers : list (string * list string)) :
  writeHeaders buf headers
  = buf +:+ String.concat ""
              (flat_map (λ '(k, vv), (λ v, k +:+ ": " +:+ v +:+ CRLF) <$> vv)
                 headers).
Proof.
  assert (Hconcat : ∀ l1 l2 : list string,
    String.concat "" (l1 ++ l2) = String.concat "" l1 +:+ String.concat "" l2).
  { induction l1 as [|x l1 IH]; intros l2; [done|].
    destruct l1 as [|y l1].
    - destruct l2; simpl; by rewrite ?StrFacts.app_nil_r.
    - change (String.concat "" ((x :: y :: l1) ++ l2))
        with (x +:+ "" +:+ String.concat "" ((y :: l1) ++ l2)).
      change (String.concat "" (x :: y :: l1))
        with (x +:+ "" +:+ String.concat "" (y :: l1)).
      rewrite IH. simpl. by rewrite StrFacts.app_assoc. }
  assert (Hvalues : ∀ (k : string) (vv : list string) (buf : string),
    foldl (λ buf v, buf +:+ (k +:+ ": " +:+ v +:+ CRLF)) buf vv
    = buf +:+ String.concat "" ((λ v, k +:+ ": " +:+ v +:+ CRLF) <$> vv)).
  { intros k vv. induction vv as [|v vv IH]; intros b; simpl.
    - by rewrite StrFacts.app_nil_r.
    - rewrite IH, StrFacts.app_assoc. f_equal.
      destruct vv; simpl; by rewrite ?StrFacts.app_nil_r. }
  unfold writeHeaders. revert buf.
  induction headers as [|[k vv] headers IH]; intros buf; simpl.
  - by rewrite StrFacts.app_nil_r.
  - rewrite IH, Hvalues, Hconcat. by rewrite StrFacts.app_assoc.
Qed.

(** The header collection of C1 is visited in one way only. *)
Lemma rangeHeader_singleton (k : string) (vv : list string) :
  rangeHeader {[k := vv]} = [(k, vv)].
Proof.
  apply Permutation_singleton_r.
  by rewrite range_entries, map_to_list_singleton.
Qed.

(** C1, as the code has it: for a transaction whose stored URL parses, with
    the include-wire-headers flag and exactly one body flag, and the selected
    header collection [{"X-Test": ["1","2"]}], the content handed to the
    client is [X-Test: 1\r\nX-Test: 2\r\n\r\n] followed by the selected body:
    written as it is when the embed flag is set, served as an attachment
    otherwise. *)
Theorem replyBinary_wire_headers (w : http.ResponseWriter) (r : http.Request)
    (record : capture.Record_) (opts : Z) (u : url.URL) :
  url_Parse (capture.URL (capture.Meta record)) = inr u →
  0 < Z.land opts writeWire →
  let request := 0 <? Z.land opts writeRequestBody in
  let response := 0 <? Z.land opts writeResponseBody in
  xorb request response = true →
  (if request then capture.RequestHeader (capture.Meta record)
   else capture.Header (capture.Meta record))
  = {["X-Test" := ["1"; "2"]]} →
  let content :=
    "X-Test: 1" +:+ CRLF +:+ "X-Test: 2" +:+ CRLF +:+ CRLF
      +:+ (if request then capture.RequestBody record
           else capture.Body record) in
  replyBinary w r record opts
  = w ++ (if 0 <? Z.land opts writeEmbed then
            [http.HeaderSet "Content-Type" "text/plain; charset=utf-8";
             http.Write content]
          else
            [http.HeaderSet "Content-Disposition"
               ("attachment; filename=" +:+ DQUOTE +:+ basename u
                  +:+ DQUOTE);
             http.ServeContent r "" (capture.DateEnd (capture.Meta record))
               content]).
Proof.
  intros Hurl Hwire request response Hone Hheaders content.
  unfold replyBinary.
  rewrite (flag_not_none _ _ Hwire), Hurl.
  apply Z.ltb_lt in Hwire. rewrite Hwire.
  fold request response. subst content.
  destruct request, response; try discriminate Hone; simpl;
    rewrite Hheaders, rangeHeader_singleton; simpl;
    by destruct (0 <? Z.land opts writeEmbed).
Qed.

(** C2: with both body flags set the reconstructor replies 500 with the
    status text, whatever the transaction and the other flags: nothing of the
    record reaches the response. *)
Theorem replyBinary_both_bodies (w : http.ResponseWriter) (r : http.Request)
    (record : capture.Record_) (opts : Z) :
  0 < Z.land opts writeRequestBody →
  0 < Z.land opts writeResponseBody →
  replyBinary w r record opts
  = w ++ [http.WriteHeader 500; http.Write "Internal Server Error"].
Proof.
  intros Hrequest Hresponse. unfold replyBinary.
  rewrite (flag_not_none _ _ Hrequest).
  apply Z.ltb_lt in Hrequest, Hresponse.
  by rewrite Hrequest, Hresponse.
Qed.

(** C10, as the code has it: with neither body flag set, the reconstructor
    leaves the response as it found it when the option set is empty, and
    also, for any other option set, when the stored URL parses; when the URL
    does not parse it replies 500. *)
Theorem replyBinary_no_body (w : http.ResponseWriter) (r : http.Request)
    (record : capture.Record_) (opts : Z) :
  Z.land opts writeRequestBody = 0 →
  Z.land opts writeResponseBody = 0 →
  replyBinary w r record opts
  = if opts =? writeNone then w
    else match url_Parse (capture.URL (capture.Meta record)) with
         | inr _ => w
         | inl _ => replyCode w http.StatusInternalServerError
         end.
Proof.
  intros Hrequest Hresponse. unfold replyBinary.
  rewrite Hrequest, Hresponse. simpl.
  destruct (opts =? writeNone); [done|].
  by destruct (url_Parse _).
Qed.

(** The wire format of any header collection: the lines of the headers in
    the order of the visit, a blank line, the selected body. *)
Lemma replyBinary_wire_content (r : http.Request) (record : capture.Record_)
    (opts : Z) (u : url.URL) :
  url_Parse (capture.URL (capture.Meta record)) = inr u →
  0 < Z.land opts writeWire →
  let request := 0 <? Z.land opts writeRequestBody in
  let response := 0 <? Z.land opts writeResponseBody in
  xorb request response = true →
  let headers :=
    if request then capture.RequestHeader (capture.Meta record)
    else capture.Header (capture.Meta record) in
  http.contents (replyBinary [] r record opts)
  = [String.concat ""
       (flat_map (λ '(k, vv), (λ v, k +:+ ": " +:+ v +:+ CRLF) <$> vv)
          (rangeHeader headers))
     +:+ CRLF
     +:+ (if request then capture.RequestBody record
          else capture.Body record)].
Proof.
  intros Hurl Hwire request response Hone headers.
  unfold replyBinary.
  rewrite (flag_not_none _ _ Hwire), Hurl.
  apply Z.ltb_lt in Hwire. rewrite Hwire.
  fold request response. subst headers.
  destruct request, response; try discriminate Hone; simpl;
    rewrite writeHeaders_lines; simpl; rewrite StrFacts.app_assoc;
    by destruct (0 <? Z.land opts writeEmbed).
Qed.

(** With one body flag and no wire flag, the content is the body alone. *)
Lemma replyBinary_body_only (w : http.ResponseWriter) (r : http.Request)
    (record : capture.Record_) (opts : Z) (u : url.URL) :
  url_Parse (capture.URL (capture.Meta record)) = inr u →
  Z.land opts writeWire = 0 →
  let request := 0 <? Z.land opts writeRequestBody in
  let response := 0 <? Z.land opts writeResponseBody in
  xorb request response = true →
  http.contents (replyBinary [] r record opts)
  = [if request then capture.RequestBody record else capture.Body record].
Proof.
  intros Hurl Hwire request response Hone. unfold replyBinary.
  assert (Hopts : (opts =? writeNone) = false).
  { apply Z.eqb_neq. intros ->. subst request response.
    by rewrite !Z.land_0_l in Hone. }
  rewrite Hopts, Hurl, Hwire. fold request response.
  destruct request, response; try discriminate Hone; simpl;
    by destruct (0 <? Z.land opts writeEmbed).
Qed.

End Reconstructor.

(** ** The query string made safe *)

Section Sanitizer.

(** A character that is not unsafe is whitespace exactly when it makes a
    gap; an unsafe character makes a gap. *)
Lemma safe_isSpace_gap (c : ascii) :
  regexp.reUnsafeChars c = false → regexp.isSpace c = Spec.gap c.
Proof. by_byte c. Qed.

Lemma unsafe_gap (c : ascii) :
  regexp.reUnsafeChars c = true → Spec.gap c = true.
Proof. by_byte c. Qed.

(** The two replacements of lines 279-280 amount to one: every run of gap
    characters becomes one space. *)
Lemma sanitizeQuery_gaps (inrun : bool) (q : string) :
  regexp.replaceRuns regexp.reRepeatedBlank inrun
    (regexp.ReplaceAllString regexp.reUnsafeChars q " ") " "
  = regexp.replaceRuns Spec.gap inrun q " ".
Proof.
  revert inrun. induction q as [|c q IH]; intros inrun; simpl; [done|].
  destruct (regexp.reUnsafeChars c) eqn:Hc.
  - rewrite (unsafe_gap _ Hc). simpl. rewrite !IH. by destruct inrun.
  - simpl. unfold regexp.reRepeatedBlank at 1.
    rewrite (safe_isSpace_gap _ Hc), !IH. done.
Qed.

(** Replacing the runs of gap characters, in terms of the maximal runs: a
    gap at the very start gives no space when the character before already
    gave one. *)
Lemma replaceRuns_render (inrun : bool) (q : string) :
  regexp.replaceRuns Spec.gap inrun q " "
  = match Spec.runs q with
    | (true, _) :: rs => (if inrun then "" else " ") +:+ Spec.render rs
    | rs => Spec.render rs
    end.
Proof.
  revert inrun. induction q as [|c q IH]; intros inrun; simpl; [done|].
  rewrite !IH. clear IH.
  destruct (Spec.gap c) eqn:Hc, (Spec.runs q) as [|[[] run] rs];
    simpl; by destruct inrun.
Qed.

Lemma runs_joined (q : string) : Spec.joined (Spec.runs q) = q.
Proof.
  induction q as [|c q IH]; simpl; [done|].
  destruct (Spec.runs q) as [|[g run] rs]; simpl in *.
  - by rewrite <- IH.
  - destruct (Bool.eqb (Spec.gap c) g); simpl; by rewrite <- IH.
Qed.

Lemma runs_maximal (q : string) : Spec.maximal (Spec.runs q).
Proof.
  induction q as [|c q IH]; simpl; [done|].
  destruct (Spec.runs q) as [|[g run] rs]; simpl in *.
  - repeat split; [done|]. by rewrite eqb_reflx.
  - destruct IH as (Hne & Hall & Halt & Hmax).
    destruct (Bool.eqb (Spec.gap c) g) eqn:Hcg; simpl.
    + repeat split; [done | by rewrite Hcg, Hall | done | done].
    + repeat split; try done.
      * by rewrite eqb_reflx.
      * by destruct (Spec.gap c), g.
Qed.

(** C8: the sanitized query is the raw query with every maximal run of
    characters that are removed (outside [0-9a-zA-Z\s.]) or whitespace
    replaced by a single space, and every other character (of [0-9a-zA-Z.])
    left where it stands; so is [<script>], whose two brackets each become a
    space. *)
Theorem sanitizeQuery_spec :
  (∀ q : string,
     ∃ rs : list (bool * string),
       Spec.joined rs = q ∧ Spec.maximal rs
       ∧ sanitizeQuery q = Spec.render rs)
  ∧ sanitizeQuery "<script>" = " script ".
Proof.
  split; [|reflexivity].
  intros q. exists (Spec.runs q).
  split; [apply runs_joined|]. split; [apply runs_maximal|].
  unfold sanitizeQuery, regexp.ReplaceAllStringPlus.
  rewrite sanitizeQuery_gaps, replaceRuns_render.
  by destruct (Spec.runs q) as [|[[] run] rs].
Qed.

End Sanitizer.

(** ** The search conditions *)

Section Search.

(** *** [LIKE] on a pattern [%term%] *)

Lemma like_percent (pattern text : string) :
  table.like (String "%" pattern) text
  = table.like pattern text
    || match text with
       | "" => false
       | String _ text' => table.like (String "%" pattern) text'
       end.
Proof. by destruct text. Qed.

(** [%] in front: the rest of the pattern matches some suffix of the text. *)
Lemma like_percent_suffix (pattern text : string) :
  table.like (String "%" pattern) text = true
  ↔ ∃ pre post, text = pre +:+ post ∧ table.like pattern post = true.
Proof.
  induction text as [|c text IH]; rewrite like_percent.
  - rewrite orb_false_r. split.
    + intros Hlike. by exists "", "".
    + intros ([|? pre] & post & Heq & Hlike); simplify_eq/=. done.
  - rewrite orb_true_iff, IH. split.
    + intros [Hlike | (pre & post & -> & Hlike)].
      * by exists "", (String c text).
      * by exists (String c pre), post.
    + intros ([|c' pre] & post & Heq & Hlike); simplify_eq/=.
      * by left.
      * right. by exists pre, post.
Qed.

(** A literal term followed by [%]: the term starts the text. *)
Lemma like_literal_prefix (term text : string) :
  table.literally term →
  table.like (term +:+ "%") text = true ↔ ∃ post, text = term +:+ post.
Proof.
  unfold table.literally. revert text.
  induction term as [|c term IH]; intros text Hliteral.
  - simpl (_ +:+ _). split; [by exists text|]. intros _.
    induction text as [|c text IHtext]; [done|].
    rewrite like_percent. by rewrite IHtext, orb_true_r.
  - simpl in Hliteral. apply andb_true_iff in Hliteral as [Hc Hterm].
    apply negb_true_iff, orb_false_iff in Hc as [Hpercent Hunderscore].
    simpl. rewrite Hpercent, Hunderscore. simpl.
    destruct text as [|x text].
    + split; [done|]. by intros [post ?].
    + rewrite andb_true_iff, (IH _ Hterm). split.
      * intros [->%Ascii.eqb_eq [post ->]]. by exists post.
      * intros [post [= -> ->]]. split; [apply Ascii.eqb_refl | by exists post].
Qed.

(** [text LIKE %term%], for a literal term: the text contains the term. *)
Lemma like_contains (term text : string) :
  table.literally term →
  table.like ("%" +:+ term +:+ "%") text = true ↔ Str.contains term text.
Proof.
  intros Hliteral. change ("%" +:+ term +:+ "%") with (String "%" (term +:+ "%")).
  rewrite like_percent_suffix. unfold Str.contains. split.
  - intros (pre & post' & -> & Hlike).
    apply (like_literal_prefix _ _ Hliteral) in Hlike as [post ->].
    by exists pre, post.
  - intros (pre & post & ->). exists pre, (term +:+ post).
    split; [done|]. apply (like_literal_prefix _ _ Hliteral). by exists post.
Qed.

(** *** The terms of a sanitized query *)


(** A sanitized query holds kept characters and single spaces only. *)
Lemma replaceRuns_gap_all (inrun : bool) (q : string) :
  Str.all (λ c, Spec.kept c || Ascii.eqb c " ")
    (regexp.replaceRuns Spec.gap inrun q " ") = true.
Proof.
  revert inrun. induction q as [|c q IH]; intros inrun; simpl; [done|].
  unfold Spec.gap at 1. destruct (Spec.kept c) eqn:Hc; simpl.
  - by rewrite Hc, IH.
  - destruct inrun; simpl; by rewrite ?orb_true_r, IH.
Qed.

Lemma sanitizeQuery_all (q : string) :
  Str.all (λ c, Spec.kept c || Ascii.eqb c " ") (sanitizeQuery q) = true.
Proof.
  unfold sanitizeQuery, regexp.ReplaceAllStringPlus.
  rewrite sanitizeQuery_gaps. apply replaceRuns_gap_all.
Qed.


Lemma Split_not_nil (s : string) (sep : ascii) : strings.Split s sep ≠ [].
Proof.
  destruct s as [|c s]; simpl; [done|].
  destruct (Ascii.eqb c sep); [done|]. by destruct (strings.Split s sep).
Qed.


(** *** The condition of a term, and of the query *)

(** The seven conditions of a term, each read on the row. *)
Lemma holds_termCond (term : string) (m : capture.RecordMeta) :
  table.holds (termCond term) m
  = table.like ("%" +:+ term +:+ "%") (capture.Host m)
    || (table.like ("%" +:+ term +:+ "%") (capture.Origin m)
    || (table.like ("%" +:+ term +:+ "%") (capture.Path m)
    || (table.like ("%" +:+ term +:+ "%") (capture.ContentType m)
    || (String.eqb (capture.Method m) term
    || (String.eqb (capture.Scheme m) term
    || (String.eqb (NilZero.string_of_int (Z.to_int (capture.Status m))) term
    || false)))))).
Proof. reflexivity. Qed.

Lemma holds_termCond_spec (term : string) (m : capture.RecordMeta) :
  table.literally term →
  table.holds (termCond term) m = true ↔ Spec.matchesTerm term m.
Proof.
  intros Hliteral. rewrite holds_termCond. unfold Spec.matchesTerm.
  rewrite !orb_true_iff, !(like_contains _ _ Hliteral), !String.eqb_eq.
  intuition discriminate.
Qed.

(** After the loop, [conds] is the union of the conditions of the terms, in
    their order. *)
Lemma searchConds_terms (terms : list string) :
  searchConds terms = db.Or (termCond <$> terms).
Proof.
  unfold searchConds.
  assert (Hloop : ∀ conds,
    foldl (λ conds term, db.Union_Or conds [termCond term]) (db.Or conds) terms
    = db.Or (conds ++ (termCond <$> terms))).
  { induction terms as [|term terms IH]; intros conds; simpl.
    - by rewrite app_nil_r.
    - by rewrite IH, <- app_assoc. }
  apply Hloop.
Qed.

Lemma holds_searchConds (terms : list string) (m : capture.RecordMeta) :
  terms ≠ [] →
  table.holds (searchConds terms) m = true
  ↔ ∃ term, term ∈ terms ∧ table.holds (termCond term) m = true.
Proof.
  intros Hterms. rewrite searchConds_terms.
  destruct terms as [|term0 terms]; [done|].
  change (table.holds (db.Or (termCond <$> term0 :: terms)) m)
    with (existsb (λ c, table.holds c m) (termCond <$> term0 :: terms)).
  rewrite existsb_exists. split.
  - intros (c & Hc & Hholds).
    apply list_elem_of_In, list_elem_of_fmap in Hc as (term & -> & Hterm).
    by exists term.
  - intros (term & Hterm & Hholds). exists (termCond term).
    split; [|done]. apply list_elem_of_In, list_elem_of_fmap. by exists term.
Qed.

(** The conditions of the listing: none for the empty query. *)
Lemma capturesQuery_conds (r : http.Request) :
  db.conds (capturesQuery r)
  = if String.eqb (sanitizeQuery (chi.URLParam r "q")) "" then []
    else [searchConds
            (strings.Split (sanitizeQuery (chi.URLParam r "q")) " ")].
Proof. unfold capturesQuery. by destruct (String.eqb _ ""). Qed.

(** Every row matches the empty term. *)
Lemma holds_termCond_empty (m : capture.RecordMeta) :
  table.holds (termCond "") m = true.
Proof.
  apply holds_termCond_spec; [done|].
  left. by exists "", (capture.Host m).
Qed.

(** The rows the listing selects: those that match some term. For the
    empty query the one term is the empty string, which every row matches. *)
Lemma capturesQuery_holds (r : http.Request) (m : capture.RecordMeta) :
  forallb (λ c, table.holds c m) (db.conds (capturesQuery r))
  = table.holds
      (searchConds
         (strings.Split (sanitizeQuery (chi.URLParam r "q")) " ")) m.
Proof.
  rewrite capturesQuery_conds.
  destruct (String.eqb_spec (sanitizeQuery (chi.URLParam r "q")) "")
    as [-> | Hq].
  - symmetry. apply (holds_searchConds _ _ (Split_not_nil _ _)).
    exists "". split; [by left | apply holds_termCond_empty].
  - cbn [forallb]. apply andb_true_r.
Qed.


(** A query that starts or ends with a gap, or has nothing else, has the
    empty string among its terms: every row is selected. So it is for
    [foo ] and for [<script>]. *)
Lemma empty_term_selects_all (r : http.Request) (rows : list capture.Record_) :
  "" ∈ strings.Split (sanitizeQuery (chi.URLParam r "q")) " " →
  table.selected (capturesQuery r) rows = rows.
Proof.
  intros Hempty. unfold table.selected. apply forallb_filter_id.
  apply forallb_forall. intros row _. rewrite capturesQuery_holds.
  apply (holds_searchConds _ _ (Split_not_nil _ _)).
  exists "". split; [done | apply holds_termCond_empty].
Qed.

Lemma empty_term_examples :
  strings.Split (sanitizeQuery "foo ") " " = ["foo"; ""]
  ∧ strings.Split (sanitizeQuery "<script>") " " = [""; "script"; ""]
  ∧ strings.Split (sanitizeQuery "GET 200") " " = ["GET"; "200"].
Proof. repeat split. Qed.

End Search.

(** ** The handlers and the failures of the store *)

Section Handlers.
Context `{W : World}.

Lemma status_replyCode (httpCode : Z) :
  http.status (replyCode [] httpCode) = Some httpCode.
Proof. reflexivity. Qed.

Lemma recordMetaHandler_error (w : http.ResponseWriter) (r : http.Request)
    (err : error) :
  getCaptureRecord (chi.URLParam r "uuid") = inl err →
  recordMetaHandler w r = replyCode w 500.
Proof. intros Hload. unfold recordMetaHandler. by rewrite Hload. Qed.

Lemma recordHandler_error (w : http.ResponseWriter) (r : http.Request)
    (opts : Z) (err : error) :
  getCaptureRecord (chi.URLParam r "uuid") = inl err →
  recordHandler w r opts = replyCode w 500.
Proof. intros Hload. unfold recordHandler. by rewrite Hload. Qed.

Lemma capturesHandler_All_error (w : http.ResponseWriter) (r : http.Request)
    (err : error) :
  db.All storage (capturesQuery r) = inl err →
  capturesHandler w r = replyCode w 500.
Proof. intros HAll. unfold capturesHandler. by rewrite HAll. Qed.

Lemma capturesHandler_Count_error (w : http.ResponseWriter)
    (r : http.Request) (requests : list capture.RecordMeta) (err : error) :
  db.All storage (capturesQuery r) = inr requests →
  db.Count storage (capturesQuery r) = inl err →
  capturesHandler w r
  = replyJSON w
      (ofPullResponse (mkPullResponse requests 0 (requestedPage r))).
Proof.
  intros HAll HCount. unfold capturesHandler. by rewrite HAll, HCount.
Qed.

(** C9, as the code has it: on every endpoint a failure of the fetch is
    answered with 500 and the status text: the fetch of the listing, and the
    load of the single transaction by the metadata endpoint and the six
    content endpoints (a failure of the store is a failure of the load). A
    failure of the count of the listing is not reported: the listing is
    served as it would be, with [pages] left at 0. *)
Theorem store_failures (w : http.ResponseWriter) (r : http.Request) :
  (∀ endpoint, fetchFails endpoint r → handler endpoint w r = replyCode w 500)
  ∧ (∀ err, db.One storage (recordQuery (chi.URLParam r "uuid")) = inl err →
            getCaptureRecord (chi.URLParam r "uuid") = inl err)
  ∧ (∀ requests err,
       db.All storage (capturesQuery r) = inr requests →
       db.Count storage (capturesQuery r) = inl err →
       handler GET_records w r
       = replyJSON w
           (ofPullResponse (mkPullResponse requests 0 (requestedPage r))))
  ∧ http.status (replyCode [] 500) = Some 500.
Proof.
  split.
  { intros endpoint Hfails.
    destruct endpoint; destruct Hfails as [err Hfails]; simpl;
      first [ by apply (capturesHandler_All_error _ _ err)
            | by apply (recordMetaHandler_error _ _ err)
            | by apply (recordHandler_error _ _ _ err) ]. }
  split; [intros err; apply getCaptureRecord_store_error|].
  split; [apply capturesHandler_Count_error | reflexivity].
Qed.

End Handlers.

(** ** The number of pages, in float64 *)

Section Float64.

(** The number of binary digits of a positive number. *)
Lemma digits2_pos_size (p : positive) : digits2_pos p = Pos.size p.
Proof. induction p as [p IH|p IH|]; simpl; by rewrite ?IH. Qed.

Lemma Zdigits2_bounds (n m : Z) :
  0 < n → 2 ^ (n - 1) ≤ m < 2 ^ n → Zdigits2 m = n.
Proof.
  intros Hn [Hlo Hhi].
  destruct m as [|p|p]; [lia| |lia].
  simpl. rewrite digits2_pos_size.
  pose proof (Pos.size_gt p) as Hgt. pose proof (Pos.size_le p) as Hle.
  apply Pos2Z.pos_lt_pos in Hgt. apply Pos2Z.pos_le_pos in Hle.
  rewrite Pos2Z.inj_pow in Hgt, Hle. 
  change (Z.pos p~0) with (2 * Z.pos p) in Hle.
  set (k := Z.pos (Pos.size p)) in *.
  assert (Hk : 0 < k) by (unfold k; lia).
  destruct (Z.lt_trichotomy k n) as [Hkn | [Hkn | Hkn]]; [|done|].
  - exfalso. assert (2 ^ k ≤ 2 ^ (n - 1)) by (apply Z.pow_le_mono_r; lia). lia.
  - exfalso. assert (2 ^ (n + 1) ≤ 2 ^ k) by (apply Z.pow_le_mono_r; lia).
    rewrite Z.pow_add_r in * by lia. lia.
Qed.

(** A mantissa of 53 digits is not shifted; one of 54 digits is shifted by
    one place. *)
Lemma shr_fexp_fits (m e : Z) (l : location) :
  2 ^ 52 ≤ m < 2 ^ 53 → -1074 ≤ e →
  shr_fexp 53 1024 m e l = (shr_record_of_loc m l, e).
Proof.
  intros Hm He. unfold shr_fexp, fexp, emin.
  rewrite (Zdigits2_bounds 53 m) by (simpl; lia).
  replace (Z.max (53 + e - 53) (3 - 1024 - 53) - e) with 0 by lia.
  reflexivity.
Qed.

Lemma shr_fexp_wide (m e : Z) (l : location) :
  2 ^ 53 ≤ m < 2 ^ 54 → -1074 ≤ e →
  shr_fexp 53 1024 m e l = (shr_1 (shr_record_of_loc m l), e + 1).
Proof.
  intros Hm He. unfold shr_fexp, fexp, emin.
  rewrite (Zdigits2_bounds 54 m) by (simpl; lia).
  replace (Z.max (54 + e - 53) (3 - 1024 - 53) - e) with 1 by lia.
  reflexivity.
Qed.

(** Rounding to nearest moves the mantissa up by one at most, and not at
    all when nothing was lost. *)
Lemma round_record (m : Z) (l : location) :
  let r := shr_record_of_loc m l in
  let m' := round_nearest_even (shr_m r) (loc_of_shr_record r) in
  (m' = m ∨ m' = m + 1) ∧ (l = loc_Exact → m' = m).
Proof.
  cbv zeta.
  destruct l as [|[]]; simpl;
    repeat match goal with |- context [if ?b then _ else _] => destruct b end;
    split; auto; done.
Qed.

Lemma shr_1_record (m : Z) (l : location) :
  0 < m →
  shr_1 (shr_record_of_loc m l)
  = Build_shr_record (Z.div2 m) (Z.odd m)
      (match l with loc_Exact => false | _ => true end).
Proof.
  intros Hm. destruct m as [|[p|p|]|]; try lia; by destruct l as [|[]].
Qed.

Lemma round_shr_1 (m : Z) (l : location) :
  0 < m →
  let r := shr_1 (shr_record_of_loc m l) in
  let m' := round_nearest_even (shr_m r) (loc_of_shr_record r) in
  (m' = m / 2 ∨ m' = m / 2 + 1)
  ∧ (l = loc_Exact → m mod 2 = 0 → m' = m / 2).
Proof.
  intros Hm. cbv zeta. rewrite (shr_1_record m l Hm).
  rewrite <- Z.div2_div.
  assert (Hodd : m mod 2 = 0 → Z.odd m = false).
  { intros Hmod. rewrite Zmod_odd in Hmod. by destruct (Z.odd m). }
  cbn [shr_m loc_of_shr_record].
  destruct (Z.odd m), l as [|[]]; cbn [round_nearest_even];
    try (split; [auto | intros; (done || (by apply Hodd))]);
    destruct (IntDef.Z.even (Z.div2 m)); split; auto; intros; try done;
    by discriminate Hodd.
Qed.

(** The second normalisation of [binary_round_aux]. *)
Lemma renormalize (m1 e : Z) :
  2 ^ 52 ≤ m1 ≤ 2 ^ 53 → -1074 ≤ e ≤ 970 →
  ∃ (m : positive) (e'' : Z),
    (let '(mrs'', e'') := shr_fexp 53 1024 m1 e loc_Exact in
     match shr_m mrs'' with
     | Z0 => S754_zero false
     | Zpos m =>
         if e'' <=? 1024 - 53 then S754_finite false m e''
         else S754_infinity false
     | Zneg _ => S754_nan
     end) = S754_finite false m e''
    ∧ 2 ^ 52 ≤ Zpos m < 2 ^ 53
    ∧ e ≤ e'' ≤ e + 1 ∧ Zpos m * 2 ^ (e'' - e) = m1.
Proof.
  intros Hm He.
  destruct (Z.eq_dec m1 (2 ^ 53)) as [-> | Hne].
  - rewrite shr_fexp_wide by (simpl; lia).
    exists (2 ^ 52)%positive, (e + 1). cbn [shr_record_of_loc shr_1 shr_m].
    change (shr_m (shr_1 {| shr_m := 2 ^ 53; shr_r := false; shr_s := false |}))
      with (Z.pos (2 ^ 52)).
    cbv iota beta.
    replace (e + 1 <=? 1024 - 53) with true by (symmetry; apply Z.leb_le; lia).
    split; [done|]. split; [done|]. split; [lia|].
    replace (e + 1 - e) with 1 by lia. done.
  - rewrite shr_fexp_fits by lia.
    destruct m1 as [|p|p]; try (simpl in Hm; lia).
    exists p, e. cbn [shr_record_of_loc shr_m].
    replace (e <=? 1024 - 53) with true by (symmetry; apply Z.leb_le; lia).
    split; [done|]. split; [lia|]. split; [lia|].
    rewrite Z.sub_diag. simpl. lia.
Qed.

(** Rounding a mantissa of 53 or 54 digits: the result is the mantissa,
    halved when it has 54 digits, or the next one, and the mantissa itself
    when nothing is lost. *)
Lemma binary_round_aux_spec (mx ex : Z) (lx : location) :
  2 ^ 52 ≤ mx < 2 ^ 54 → -1074 ≤ ex ≤ 960 →
  ∃ (m : positive) (e shift mm' : Z),
    binary_round_aux 53 1024 false mx ex lx = S754_finite false m e
    ∧ 2 ^ 52 ≤ Zpos m < 2 ^ 53
    ∧ (shift = 0 ∨ shift = 1)
    ∧ (mx < 2 ^ 53 → shift = 0)
    ∧ (mm' = mx / 2 ^ shift ∨ mm' = mx / 2 ^ shift + 1)
    ∧ (lx = loc_Exact → mx mod 2 ^ shift = 0 → mm' = mx / 2 ^ shift)
    ∧ ex + shift ≤ e ≤ ex + shift + 1
    ∧ Zpos m * 2 ^ (e - (ex + shift)) = mm'.
Proof.
  intros Hmx Hex. unfold binary_round_aux.
  destruct (Z.lt_ge_cases mx (2 ^ 53)) as [Hfits | Hwide].
  - rewrite shr_fexp_fits by lia.
    destruct (round_record mx lx) as [Hround Hexact].
    set (m1 := round_nearest_even _ _) in *.
    destruct (renormalize m1 ex) as (m & e & -> & Hm & He & Hvalue);
      [lia | lia |].
    exists m, e, 0, m1. rewrite Z.add_0_r, Z.pow_0_r, Z.div_1_r.
    repeat split; auto; lia.
  - rewrite shr_fexp_wide by lia.
    destruct (round_shr_1 mx lx) as [Hround Hexact]; [lia|].
    set (m1 := round_nearest_even _ _) in *.
    assert (2 ^ 52 ≤ mx / 2 < 2 ^ 53).
    { split; [apply Z.div_le_lower_bound | apply Z.div_lt_upper_bound]; lia. }
    destruct (renormalize m1 (ex + 1)) as (m & e & -> & Hm & He & Hvalue);
      [lia | lia |].
    exists m, e, 1, m1. rewrite Z.pow_1_r.
    repeat split; auto; lia.
Qed.

Lemma Zdigits2_spec (m : Z) :
  0 < m → 0 < Zdigits2 m ∧ 2 ^ (Zdigits2 m - 1) ≤ m < 2 ^ Zdigits2 m.
Proof.
  intros Hm. destruct m as [|p|p]; try lia.
  simpl. rewrite digits2_pos_size.
  pose proof (Pos.size_gt p) as Hgt. pose proof (Pos.size_le p) as Hle.
  apply Pos2Z.pos_lt_pos in Hgt. apply Pos2Z.pos_le_pos in Hle.
  rewrite Pos2Z.inj_pow in Hgt, Hle.
  change (Z.pos p~0) with (2 * Z.pos p) in Hle.
  set (k := Z.pos (Pos.size p)) in *.
  assert (Hk : 0 < k) by (unfold k; lia).
  split; [done|]. split; [|done].
  replace k with (1 + (k - 1)) in Hle by lia.
  rewrite Z.pow_add_r in Hle by lia. lia.
Qed.

Lemma iter_xO (p k : positive) :
  Z.pos (Pos.iter xO p k) = Z.pos p * 2 ^ Z.pos k.
Proof.
  rewrite <- Z.shiftl_mul_pow2 by done.
  unfold Z.shiftl.
  apply (Pos.iter_swap_gen _ _ Z.pos xO (Z.mul 2)). done.
Qed.

(** [float64(c)] is exact below [2^53]. *)
Lemma float64_exact (c : Z) :
  0 < c < 2 ^ 53 →
  ∃ (m : positive) (e : Z),
    math.float64 c = S754_finite false m e
    ∧ 2 ^ 52 ≤ Zpos m < 2 ^ 53 ∧ -52 ≤ e ≤ 0 ∧ Zpos m = c * 2 ^ (- e).
Proof.
  intros Hc. destruct c as [|p|p]; try lia.
  destruct (Zdigits2_spec (Z.pos p)) as (Hd & Hlo & Hhi); [lia|].
  unfold math.float64, binary_normalize, binary_round.
  change (Z.pos (digits2_pos p)) with (Zdigits2 (Z.pos p)).
  set (d := Zdigits2 (Z.pos p)) in *.
  assert (Hd53 : d ≤ 53).
  { destruct (Z.le_gt_cases d 53) as [|Hgt]; [done|]. exfalso.
    assert (2 ^ 53 ≤ 2 ^ (d - 1)) by (apply Z.pow_le_mono_r; lia). lia. }
  unfold fexp, emin.
  replace (Z.max (d + 0 - 53) (3 - 1024 - 53)) with (d - 53) by lia.
  unfold shl_align.
  destruct (d - 53 - 0) as [|k|k] eqn:Hk; try lia.
  - assert (d = 53) as Hd' by lia. rewrite Hd' in *.
    destruct (binary_round_aux_spec (Z.pos p) 0 loc_Exact)
      as (m & e & shift & mm' & -> & Hm & _ & Hshift & _ & Hexact & He & Hval);
      [simpl in *; lia | lia |].
    assert (shift = 0) as -> by (apply Hshift; lia).
    rewrite Z.pow_0_r, Z.div_1_r, Z.mod_1_r in Hexact.
    rewrite (Hexact eq_refl eq_refl) in Hval.
    assert (e = 0) as ->.
    { destruct (Z.eq_dec e 0) as [|Hne]; [done|].
      replace e with 1 in * by lia. simpl in Hval. lia. }
    exists m, 0. simpl in Hval. simpl. repeat split; lia.
  - assert (Hmx : Z.pos (Pos.iter xO p k) = Z.pos p * 2 ^ (53 - d)).
    { rewrite iter_xO. f_equal. f_equal. lia. }
    assert (Hpow : 2 ^ 53 = 2 * (2 ^ (d - 1) * 2 ^ (53 - d))).
    { rewrite <- Z.pow_add_r by lia. rewrite <- Z.pow_succ_r by lia.
      f_equal. lia. }
    assert (0 < 2 ^ (53 - d)) by (apply Z.pow_pos_nonneg; lia).
    assert (Hd2 : 2 ^ d = 2 * 2 ^ (d - 1)).
    { rewrite <- Z.pow_succ_r by lia. f_equal. lia. }
    destruct (binary_round_aux_spec (Z.pos (Pos.iter xO p k)) (d - 53) loc_Exact)
      as (m & e & shift & mm' & -> & Hm & _ & Hshift & _ & Hexact & He & Hval);
      [rewrite Hmx; nia | lia |].
    assert (shift = 0) as -> by (apply Hshift; rewrite Hmx; nia).
    rewrite Z.pow_0_r, Z.div_1_r, Z.mod_1_r in Hexact.
    rewrite (Hexact eq_refl eq_refl) in Hval.
    assert (e = d - 53) as ->.
    { destruct (Z.eq_dec e (d - 53)) as [|Hne]; [done|].
      replace (e - (d - 53 + 0)) with 1 in * by lia.
      rewrite Hmx in Hval. simpl in Hval. nia. }
    exists m, (d - 53).
    replace (d - 53 - (d - 53 + 0)) with 0 in Hval by lia.
    rewrite Z.pow_0_r, Z.mul_1_r in Hval.
    repeat split; try lia. rewrite Hval, Hmx. f_equal. f_equal. lia.
Qed.

(** The quotient of two mantissas of 53 digits, before rounding. *)
Lemma SFdiv_core_53 (m1 e1 m2 e2 : Z) :
  2 ^ 52 ≤ m1 < 2 ^ 53 → 2 ^ 52 ≤ m2 < 2 ^ 53 → -1000 ≤ e1 - e2 →
  SFdiv_core_binary 53 1024 m1 e1 m2 e2
  = (m1 * 2 ^ 53 / m2, e1 - e2 - 53,
     new_location m2 (m1 * 2 ^ 53 mod m2)).
Proof.
  intros Hm1 Hm2 He. unfold SFdiv_core_binary.
  rewrite (Zdigits2_bounds 53 m1), (Zdigits2_bounds 53 m2) by (simpl; lia).
  unfold fexp, emin.
  replace (Z.min (Z.max (53 + e1 - (53 + e2) - 53) (3 - 1024 - 53)) (e1 - e2))
    with (e1 - e2 - 53) by lia.
  replace (e1 - e2 - (e1 - e2 - 53)) with 53 by lia.
  rewrite Z.shiftl_mul_pow2 by done.
  unfold Z.div, Z.modulo.
  by destruct (Z.div_eucl (m1 * 2 ^ 53) m2).
Qed.

Lemma new_location_0 (m : Z) : new_location m 0 = loc_Exact.
Proof. unfold new_location. by destruct (Z.even m). Qed.

(** Rounded at a scale of [1/64] or finer, a quotient by 50 keeps its
    ceiling. *)
Lemma ceil_scaled (c P mm' : Z) :
  0 ≤ c → 64 ≤ P →
  mm' = c * P / 50 ∨ (mm' = c * P / 50 + 1 ∧ c mod 50 ≠ 0) →
  - ((- mm') / P) = (c + 49) / 50.
Proof.
  intros Hc HP Hmm.
  pose proof (Z.div_mod c 50 ltac:(lia)) as Hck.
  pose proof (Z.mod_pos_bound c 50 ltac:(lia)) as Ht.
  set (k := c / 50) in *. set (t := c mod 50) in *.
  pose proof (Z.div_mod (t * P) 50 ltac:(lia)) as Htu.
  pose proof (Z.mod_pos_bound (t * P) 50 ltac:(lia)) as Hv.
  set (u := t * P / 50) in *. set (v := (t * P) mod 50) in *.
  assert (HcP : c * P / 50 = k * P + u).
  { symmetry. apply (Z.div_unique _ _ _ v); [lia|]. nia. }
  rewrite HcP in Hmm.
  destruct (Z.eq_dec t 0) as [Ht0 | Ht0].
  - assert (u = 0) by nia. assert (mm' = k * P) as -> by lia.
    rewrite <- Z.mul_opp_l, Z.div_mul by lia.
    apply (Z.div_unique _ _ _ 49); lia.
  - assert (1 ≤ u ≤ P - 2) by nia.
    assert ((- mm') / P = - (k + 1)) as ->.
    { symmetry. apply (Z.div_unique _ _ _ ((k + 1) * P - mm')); [lia|]. lia. }
    apply (Z.div_unique _ _ _ (t - 1)); lia.
Qed.

(** An integer below [2^53] survives the conversion to float64 and back. *)
Lemma uint_of_float64 (n : Z) :
  0 ≤ n < 2 ^ 53 → math.uint_of_float (math.float64 n) = n.
Proof.
  intros Hn. destruct (Z.eq_dec n 0) as [-> | Hne]; [done|].
  destruct (float64_exact n) as (m & e & -> & Hm & He & Hval); [lia|].
  unfold math.uint_of_float.
  destruct (Z.leb_spec 0 e) as [He0 | He0].
  - replace e with 0 in * by lia. simpl in Hval.
    rewrite Z.pow_0_r, Z.mul_1_r.
    destruct (Z.ltb_spec (Z.pos m) (2 ^ 64)); lia.
  - assert (0 < 2 ^ (- e)) by (apply Z.pow_pos_nonneg; lia).
    rewrite Hval, Z.div_mul by lia.
    destruct (Z.ltb_spec n (2 ^ 64)); lia.
Qed.

Lemma float64_pageSize :
  math.float64 pageSize = S754_finite false (50 * 2 ^ 47)%positive (-47).
Proof. reflexivity. Qed.

(** Line 327 in exact arithmetic: below [2^52] rows the float64 quotient
    and its ceiling give the ceiling of [c / 50]. *)
Lemma totalPages_ceil (c : Z) :
  0 ≤ c < 2 ^ 52 → totalPages c = (c + 49) / 50.
Proof.
  intros Hc. destruct (Z.eq_dec c 0) as [-> | Hne]; [done|].
  unfold totalPages. rewrite float64_pageSize.
  destruct (float64_exact c) as (m1 & e1 & -> & Hm1 & He1 & Hval1); [lia|].
  assert (He1' : e1 ≤ -1).
  { destruct (Z.eq_dec e1 0) as [-> | ?]; [|lia]. simpl in Hval1. lia. }
  assert (Hm2 : Z.pos (50 * 2 ^ 47) = 50 * 2 ^ 47) by done.
  unfold math.quo, SFdiv.
  rewrite SFdiv_core_53 by (rewrite ?Hm2; lia).
  set (q := Z.pos m1 * 2 ^ 53 / Z.pos (50 * 2 ^ 47)).
  set (r := (Z.pos m1 * 2 ^ 53) mod Z.pos (50 * 2 ^ 47)).
  assert (Hq : 2 ^ 52 ≤ q < 2 ^ 54).
  { subst q. rewrite Hm2. split.
    - apply Z.div_le_lower_bound; lia.
    - apply Z.div_lt_upper_bound; lia. }
  destruct (binary_round_aux_spec q (e1 - -47 - 53) (new_location (Z.pos (50 * 2 ^ 47)) r))
    as (m & e & shift & mm' & Hx & Hm & Hshift & _ & Hround & Hexact & He & Hval);
    [done | lia |].
  change (xorb false false) with false. rewrite Hx. clear Hx.
  unfold math.Ceil.
  destruct (Z.leb_spec 0 e) as [|_]; [lia|].
  change (binary_normalize 53 1024 ?n 0 false) with (math.float64 n).
  cbn [cond_Zopp].
  (* the scale *)
  set (S := 6 - e1 - shift).
  assert (HS : 6 ≤ S) by (subst S; lia).
  assert (HP : 64 ≤ 2 ^ S).
  { change 64 with (2 ^ 6). apply Z.pow_le_mono_r; lia. }
  assert (HSpos : 0 < 2 ^ S) by lia.
  assert (H47 : 0 < 2 ^ 47 * 2 ^ shift) by (destruct Hshift as [-> | ->]; done).
  (* the quotient in terms of [c] *)
  assert (Hnum : Z.pos m1 * 2 ^ 53 = c * 2 ^ S * (2 ^ 47 * 2 ^ shift)).
  { rewrite Hval1. rewrite <- !Z.mul_assoc. f_equal.
    rewrite <- !Z.pow_add_r by lia. f_equal. subst S. lia. }
  assert (Hqs : q / 2 ^ shift = c * 2 ^ S / 50).
  { subst q. rewrite Hm2, Z.div_div by (destruct Hshift as [-> | ->]; lia).
    rewrite Hnum, <- (Z.mul_assoc 50).
    apply Z.div_mul_cancel_r; lia. }
  (* exactness when 50 divides [c] *)
  assert (Hdiv : c mod 50 = 0 → mm' = q / 2 ^ shift).
  { intros Hc50. apply Z.mod_divide in Hc50 as [k Hk]; [|done].
    assert (Hnum' : Z.pos m1 * 2 ^ 53
                    = k * 2 ^ (6 - e1 - shift) * 2 ^ shift * (50 * 2 ^ 47)).
    { rewrite Hnum, Hk. subst S. ring. }
    apply Hexact.
    - subst r. rewrite Hm2, Hnum', Z.mod_mul by done. apply new_location_0.
    - subst q. rewrite Hm2, Hnum', Z.div_mul by done.
      apply Z.mod_mul. destruct Hshift as [-> | ->]; done. }
  rewrite Hqs in Hround, Hdiv.
  (* the ceiling *)
  assert (Hceil : - (- Z.pos m / 2 ^ (- e)) = - (- mm' / 2 ^ S)).
  { f_equal. assert (0 < 2 ^ (- e)) by (apply Z.pow_pos_nonneg; lia).
    destruct (Z.eq_dec e (e1 - -47 - 53 + shift)) as [Heq | Hneq].
    - replace (e - (e1 - -47 - 53 + shift)) with 0 in Hval by lia.
      rewrite Z.pow_0_r, Z.mul_1_r in Hval. subst mm'.
      f_equal. f_equal. subst S. lia.
    - replace (e - (e1 - -47 - 53 + shift)) with 1 in Hval by lia.
      rewrite Z.pow_1_r in Hval. subst mm'.
      replace S with (- e + 1) by (subst S; lia).
      rewrite Z.pow_add_r, Z.pow_1_r by lia.
      rewrite <- Z.mul_opp_l. symmetry. apply Z.div_mul_cancel_r; lia. }
  rewrite Hceil, (ceil_scaled c (2 ^ S) mm'); [|lia|done|].
  - apply uint_of_float64.
    assert ((c + 49) / 50 ≤ c).
    { apply Z.div_le_upper_bound; lia. }
    assert (0 ≤ (c + 49) / 50) by (apply Z.div_pos; lia).
    lia.
  - destruct Hround as [-> | ->]; [by left | right].
    split; [done|]. intros Hc50. specialize (Hdiv Hc50). lia.
Qed.

End Float64.

(** ** The pages of the listing *)

Section Pages.

(** The page asked for is at least 1 and fits an unsigned 64-bit integer. *)
Lemma parseDigits_range (s : string) (n v : Z) :
  0 ≤ n < 2 ^ 64 → strconv.parseDigits n s = inr v → 0 ≤ v < 2 ^ 64.
Proof.
  revert n. induction s as [|c s IH]; intros n Hn; simpl.
  - by intros [= <-].
  - destruct (regexp.isDigit c) eqn:Hc; [|done].
    destruct (2 ^ 64 <=? n * 10 + (Str.code c - Str.code "0")) eqn:Hfit;
      [done|].
    apply IH. apply Z.leb_gt in Hfit. split; [|done].
    unfold regexp.isDigit, Str.between in Hc.
    apply andb_true_iff in Hc as [Hlo _]. apply Z.leb_le in Hlo. lia.
Qed.

Lemma requestedPage_range (r : http.Request) :
  1 ≤ requestedPage r < 2 ^ 64.
Proof.
  unfold requestedPage, strconv.ParseUint.
  destruct (String.eqb _ ""); [simpl; lia|].
  destruct (strconv.parseDigits 0 _) as [err|page] eqn:Hparse; [simpl; lia|].
  apply parseDigits_range in Hparse; [|lia].
  unfold uint. rewrite Z.mod_small by done.
  destruct (Z.ltb_spec page 1); lia.
Qed.

(** A missing, unparsable or zero page is page 1. *)
Lemma requestedPage_default (r : http.Request) (err : error) :
  strconv.ParseUint (chi.URLParam r "page") = inl err ∨
  strconv.ParseUint (chi.URLParam r "page") = inr 0 →
  requestedPage r = 1.
Proof. unfold requestedPage. by intros [-> | ->]. Qed.

(** While [pageSize * (page - 1)] fits a signed 64-bit integer, it is the
    offset of the query. *)
Lemma capturesQuery_offset (r : http.Request) :
  pageSize * (requestedPage r - 1) < 2 ^ 63 →
  db.offset (capturesQuery r) = Some (pageSize * (requestedPage r - 1)).
Proof.
  intros Hfit. pose proof (requestedPage_range r) as Hpage.
  unfold pageSize in *.
  assert (Hoffset :
    int (50 * int (uint (requestedPage r - 1)))
    = 50 * (requestedPage r - 1)).
  { unfold int, uint.
    rewrite (Z.mod_small (requestedPage r - 1)) by lia.
    rewrite (Z.mod_small (requestedPage r - 1 + 2 ^ 63)) by lia.
    rewrite Z.mod_small by lia. lia. }
  unfold capturesQuery, pageSize. rewrite Hoffset.
  by destruct (negb _).
Qed.

Lemma capturesQuery_limit (r : http.Request) :
  db.limit (capturesQuery r) = Some pageSize
  ∧ db.orderBy (capturesQuery r) = ["id"].
Proof. unfold capturesQuery. by destruct (negb _). Qed.

(** The listing over the table, while the offset fits 64 bits and the
    table holds fewer than [2^52] rows: the rows that match, in the order of
    their identifiers, from the offset [50 * (page - 1)] on, at most 50 of
    them; and the ceiling of their total number over 50 as the number of
    pages. *)
Lemma capturesHandler_table (rows : list capture.Record_)
    (w : http.ResponseWriter) (r : http.Request) :
  pageSize * (requestedPage r - 1) < 2 ^ 63 →
  Z.of_nat (length rows) < 2 ^ 52 →
  let matching := table.selected (capturesQuery r) rows in
  let page :=
    take 50 (drop (Z.to_nat (50 * (requestedPage r - 1)))
               (merge_sort table.byID matching)) in
  @capturesHandler (example.world rows) w r
  = @replyJSON (example.world rows) w
      (ofPullResponse
         (mkPullResponse (capture.Meta <$> page)
            ((Z.of_nat (length matching) + 49) / 50)
            (requestedPage r)))
  ∧ (length page ≤ 50)%nat
  ∧ Sorted table.byID page.
Proof.
  intros Hfit Hrows matching page. split; [|split].
  - unfold capturesHandler. simpl.
    unfold table.window, table.ordered.
    destruct (capturesQuery_limit r) as [-> ->].
    rewrite (capturesQuery_offset r Hfit). simpl.
    rewrite totalPages_ceil; [done|].
    pose proof (filter_length_le
                  (λ row, forallb (λ c, table.holds c (capture.Meta row))
                            (db.conds (capturesQuery r))) rows) as Hle.
    fold (table.selected (capturesQuery r) rows) in Hle. lia.
  - subst page. rewrite length_take. lia.
  - assert (Hsorted : Sorted table.byID (merge_sort table.byID matching)).
    { assert (Htotal : Total table.byID).
      { intros a b. unfold table.byID. lia. }
      apply (Sorted_merge_sort table.byID). }
    assert (Hdrop : ∀ n (l : list capture.Record_),
      Sorted table.byID l → Sorted table.byID (drop n l)).
    { induction n as [|n IH]; intros l Hl; [done|].
      destruct l as [|a l]; [done|]. apply IH. by inversion Hl. }
    assert (Htake : ∀ n (l : list capture.Record_),
      Sorted table.byID l → Sorted table.byID (take n l)).
    { induction n as [|n IH]; intros l Hl; [constructor|].
      destruct l as [|a l]; [constructor|]. simpl.
      inversion_clear Hl as [|?? Hl' Hhd]. constructor; [by apply IH|].
      destruct Hhd as [|b l Hab]; [by destruct n; constructor|].
      destruct n; constructor. done. }
    by apply Htake, Hdrop.
Qed.

(** No row matches: the listing is empty and there is no page. *)
Lemma capturesHandler_table_no_match (rows : list capture.Record_)
    (w : http.ResponseWriter) (r : http.Request) :
  table.selected (capturesQuery r) rows = [] →
  @capturesHandler (example.world rows) w r
  = @replyJSON (example.world rows) w
      (ofPullResponse (mkPullResponse [] 0 (requestedPage r))).
Proof.
  intros Hnone. unfold capturesHandler. simpl.
  rewrite Hnone. unfold table.ordered, table.window.
  destruct (capturesQuery_limit r) as [-> ->].
  change (merge_sort table.byID []) with (@nil capture.Record_).
  change (totalPages (Z.of_nat (length (@nil capture.Record_)))) with 0.
  cbn [String.eqb Ascii.eqb Bool.eqb].
  destruct (db.offset (capturesQuery r)); by rewrite ?drop_nil, ?take_nil.
Qed.

(** The handler called with a page whose offset overflows: the table holds
    35 rows and the page bound is 368934881474191034.
    [pageSize * (page - 1)] is 18446744073709551650, which wraps to 34 in 64
    bits: the listing holds the 35th row, where the offset [50 * (page - 1)]
    leaves no row. *)
Lemma capturesHandler_page_overflow :
  let r := example.request [("page", "368934881474191034")] in
  requestedPage r = 368934881474191034
  ∧ pageSize * (requestedPage r - 1) = 18446744073709551650
  ∧ db.offset (capturesQuery r) = Some 34
  ∧ @capturesHandler (example.world (example.rows 35)) [] r
    = @replyJSON (example.world (example.rows 35)) []
        (ofPullResponse
           (mkPullResponse
              [capture.Meta (example.get 35 "http://a.b/c?d=e" "" "ok")]
              1 368934881474191034))
  ∧ drop (Z.to_nat (pageSize * (requestedPage r - 1))) (example.rows 35) = [].
Proof.
  repeat split.
Qed.

End Pages.

(** ** The shape of a file name *)

Section SafeNames.

Lemma fileChar_safe (c : ascii) :
  regexp.reUnsafeFile c = negb (Shape.fileChar c).
Proof. reflexivity. Qed.

Lemma nameChar_cases (c : ascii) :
  Shape.fileChar c = Shape.nameChar c || regexp.reRepeatedDash c
  ∧ (regexp.reRepeatedDash c = true → Shape.nameChar c = false).
Proof. by_byte c. Qed.

(** Replacing runs by one character of the class leaves no two of them side
    by side; after a run, the text does not start in the class. *)
Lemma replaceRuns_noRepeat (class : ascii → bool) (d : ascii) (inrun : bool)
    (src : string) :
  class d = true →
  Shape.noRepeat class (regexp.replaceRuns class inrun src (String d "")) = true
  ∧ (inrun = true →
     Shape.startsIn class (regexp.replaceRuns class inrun src (String d ""))
     = false).
Proof.
  intros Hd. revert inrun.
  induction src as [|c src IH]; intros inrun; [done|].
  simpl. destruct (class c) eqn:Hc.
  - destruct inrun; [apply IH|].
    destruct (IH true) as [Hno Hstart]. specialize (Hstart eq_refl).
    split; [|done]. simpl.
    destruct (regexp.replaceRuns class true src (String d "")) as [|e rest];
      [done|].
    simpl in Hstart. rewrite Hstart, andb_false_r. simpl. exact Hno.
  - destruct (IH false) as [Hno _]. split; [|by simpl].
    simpl. rewrite Hc. simpl.
    by destruct (regexp.replaceRuns class false src (String d "")).
Qed.

Lemma noRepeat_tail (class : ascii → bool) (c : ascii) (s : string) :
  Shape.noRepeat class (String c s) = true → Shape.noRepeat class s = true.
Proof. simpl. by intros [_ ?]%andb_true_iff. Qed.

Lemma TrimLeft_noRepeat (class : ascii → bool) (s cutset : string) :
  Shape.noRepeat class s = true →
  Shape.noRepeat class (strings.TrimLeft s cutset) = true.
Proof.
  induction s as [|c s IH]; [done|]. intros Hs. simpl strings.TrimLeft.
  destruct (Str.any (Ascii.eqb c) cutset); [|done].
  by apply IH, (noRepeat_tail _ c).
Qed.

Lemma TrimRight_noRepeat (class : ascii → bool) (s cutset : string) :
  Shape.noRepeat class s = true →
  Shape.noRepeat class (strings.TrimRight s cutset) = true.
Proof.
  induction s as [|c s IH]; [done|]. intros Hs.
  pose proof (IH (noRepeat_tail _ _ _ Hs)) as Htail.
  simpl strings.TrimRight.
  destruct (String.eqb _ "" && _); [done|].
  simpl in Hs. apply andb_true_iff in Hs as [Hhead _].
  simpl. rewrite Htail, andb_true_r.
  destruct s as [|e s]; [done|]. simpl strings.TrimRight in *.
  destruct (String.eqb _ "" && _); done.
Qed.

Lemma TrimLeft_start (s : string) :
  Shape.startsIn regexp.reRepeatedDash (strings.TrimLeft s "-") = false.
Proof.
  induction s as [|c s IH]; [done|]. simpl.
  unfold regexp.reRepeatedDash in *.
  destruct (Ascii.eqb c "-") eqn:Hc; simpl; [done | by rewrite Hc].
Qed.

Lemma TrimRight_start (s : string) :
  Shape.startsIn regexp.reRepeatedDash s = false →
  Shape.startsIn regexp.reRepeatedDash (strings.TrimRight s "-") = false.
Proof.
  destruct s as [|c s]; [done|]. simpl.
  unfold regexp.reRepeatedDash. intros Hc.
  rewrite Hc. simpl. by rewrite andb_false_r.
Qed.

Lemma TrimRight_end (s : string) :
  Shape.endsIn regexp.reRepeatedDash (strings.TrimRight s "-") = false.
Proof.
  induction s as [|c s IH]; [done|]. simpl strings.TrimRight.
  destruct (String.eqb_spec (strings.TrimRight s "-") "") as [Hempty | Hrest].
  - rewrite Hempty. simpl. unfold regexp.reRepeatedDash.
    destruct (Ascii.eqb c "-") eqn:Hc; simpl; [done | by rewrite Hc].
  - simpl. by destruct (strings.TrimRight s "-").
Qed.

(** A text of the shape is left as it is by each step. *)
Lemma ReplaceAllString_id (class : ascii → bool) (src repl : string) :
  Str.all (λ c, negb (class c)) src = true →
  regexp.ReplaceAllString class src repl = src.
Proof.
  induction src as [|c src IH]; [done|]. simpl.
  intros [Hc Hsrc]%andb_true_iff. apply negb_true_iff in Hc.
  by rewrite Hc, IH.
Qed.

Lemma replaceRuns_id (class : ascii → bool) (d : ascii) (src : string) :
  Str.all (λ c, negb (class c) || Ascii.eqb c d) src = true →
  Shape.noRepeat class src = true →
  regexp.replaceRuns class false src (String d "") = src
  ∧ (Shape.startsIn class src = false →
     regexp.replaceRuns class true src (String d "") = src).
Proof.
  induction src as [|c src IH]; [done|].
  intros [Hcd Hall]%andb_true_iff Hsrc.
  pose proof (noRepeat_tail _ _ _ Hsrc) as Htail.
  destruct (IH Hall Htail) as [IHout IHin].
  simpl in Hsrc. apply andb_true_iff in Hsrc as [Hhead _].
  simpl. destruct (class c) eqn:Hc.
  - split; [|done]. simpl in Hcd. apply Ascii.eqb_eq in Hcd as ->.
    simpl. f_equal.
    apply IHin. destruct src as [|e src]; [done|]. simpl.
    by apply negb_true_iff in Hhead.
  - by rewrite IHout.
Qed.

Lemma TrimLeft_id (s : string) :
  Shape.startsIn regexp.reRepeatedDash s = false → strings.TrimLeft s "-" = s.
Proof.
  destruct s as [|c s]; [done|]. simpl.
  unfold regexp.reRepeatedDash. by intros ->.
Qed.

Lemma TrimRight_id (s : string) :
  Shape.endsIn regexp.reRepeatedDash s = false → strings.TrimRight s "-" = s.
Proof.
  induction s as [|c s IH]; [done|]. intros Hend.
  simpl strings.TrimRight. destruct s as [|e s].
  - simpl in *. unfold regexp.reRepeatedDash in Hend. by rewrite Hend.
  - rewrite IH by done. done.
Qed.

(** The letters, digits and underscores pass every step. *)
Lemma restrict_app (class : ascii → bool) (s t : string) :
  Shape.restrict class (s +:+ t)
  = Shape.restrict class s +:+ Shape.restrict class t.
Proof.
  induction s as [|c s IH]; [done|]. simpl.
  destruct (class c); simpl; by rewrite IH.
Qed.

Lemma restrict_ReplaceAllString (s : string) :
  Shape.restrict Shape.nameChar
    (regexp.ReplaceAllString regexp.reUnsafeFile s "-")
  = Shape.restrict Shape.nameChar s.
Proof.
  induction s as [|c s IH]; [done|]. simpl.
  destruct (nameChar_cases c) as [Hfile Hdash].
  rewrite fileChar_safe, Hfile.
  destruct (Shape.nameChar c) eqn:Hname; simpl; [by rewrite Hname, IH|].
  destruct (regexp.reRepeatedDash c); simpl; rewrite ?Hname; apply IH.
Qed.

Lemma restrict_replaceRuns (inrun : bool) (s : string) :
  Shape.restrict Shape.nameChar
    (regexp.replaceRuns regexp.reRepeatedDash inrun s "-")
  = Shape.restrict Shape.nameChar s.
Proof.
  revert inrun. induction s as [|c s IH]; intros inrun; [done|]. simpl.
  destruct (nameChar_cases c) as [_ Hdash].
  destruct (regexp.reRepeatedDash c) eqn:Hc.
  - rewrite (Hdash eq_refl). destruct inrun; simpl; by rewrite IH.
  - simpl. by rewrite IH.
Qed.

Lemma restrict_TrimLeft (s : string) :
  Shape.restrict Shape.nameChar (strings.TrimLeft s "-")
  = Shape.restrict Shape.nameChar s.
Proof.
  induction s as [|c s IH]; [done|]. simpl.
  destruct (Ascii.eqb_spec c "-") as [-> | Hc]; simpl; [by rewrite IH | done].
Qed.

Lemma restrict_TrimRight (s : string) :
  Shape.restrict Shape.nameChar (strings.TrimRight s "-")
  = Shape.restrict Shape.nameChar s.
Proof.
  induction s as [|c s IH]; [done|]. simpl strings.TrimRight.
  destruct (String.eqb_spec (strings.TrimRight s "-") "") as [Hempty | Hrest].
  - rewrite Hempty in *. simpl in IH. simpl.
    destruct (Ascii.eqb_spec c "-") as [-> | Hc]; simpl; [done|].
    by rewrite <- IH.
  - simpl. by rewrite IH.
Qed.

(** The shape of every safe name. *)
Lemma safeName_shape (name : string) :
  Str.all Shape.fileChar (safeName name) = true
  ∧ Shape.noRepeat regexp.reRepeatedDash (safeName name) = true
  ∧ Shape.startsIn regexp.reRepeatedDash (safeName name) = false
  ∧ Shape.endsIn regexp.reRepeatedDash (safeName name) = false.
Proof.
  unfold safeName, strings.Trim, regexp.ReplaceAllStringPlus.
  split; [|split; [|split]].
  - apply TrimRight_all, TrimLeft_all, replaceRuns_all; [|done].
    apply ReplaceAllString_all; [|done].
    intros c. rewrite fileChar_safe. by destruct (Shape.fileChar c).
  - apply TrimRight_noRepeat, TrimLeft_noRepeat.
    by apply (replaceRuns_noRepeat regexp.reRepeatedDash "-" false).
  - apply TrimRight_start, TrimLeft_start.
  - apply TrimRight_end.
Qed.

Lemma safeName_fixed (name : string) :
  Str.all Shape.fileChar name = true →
  Shape.noRepeat regexp.reRepeatedDash name = true →
  Shape.startsIn regexp.reRepeatedDash name = false →
  Shape.endsIn regexp.reRepeatedDash name = false →
  safeName name = name.
Proof.
  intros Hall Hno Hstart Hend.
  unfold safeName, strings.Trim, regexp.ReplaceAllStringPlus.
  rewrite ReplaceAllString_id.
  - destruct (replaceRuns_id regexp.reRepeatedDash "-" name) as [-> _];
      [|done|].
    + clear. induction name as [|c name IH]; [done|]. simpl.
      rewrite IH. unfold regexp.reRepeatedDash. by destruct (Ascii.eqb c "-").
    + by rewrite TrimLeft_id, TrimRight_id.
  - revert Hall. apply StrFacts.all_impl. intros c.
    rewrite fileChar_safe. by intros ->.
Qed.

Lemma safeName_restrict (name : string) :
  Shape.restrict Shape.nameChar (safeName name)
  = Shape.restrict Shape.nameChar name.
Proof.
  unfold safeName, strings.Trim, regexp.ReplaceAllStringPlus.
  by rewrite restrict_TrimRight, restrict_TrimLeft,
    (restrict_replaceRuns false), restrict_ReplaceAllString.
Qed.

(** X1: the file name of every download is a stem followed by [.txt]. The
    stem is made of letters, digits, underscores and dashes only (so it holds
    no quote, no slash, no dot and no line break), no two dashes stand side
    by side, and it neither starts nor ends with a dash. Its letters, digits
    and underscores are those of the host followed by those of the last
    element of the path, in their order: nothing but separators is lost. *)
Theorem basename_shape (u : url.URL) :
  ∃ stem,
    basename u = stem +:+ ".txt"
    ∧ Str.all Shape.fileChar stem = true
    ∧ Shape.noRepeat regexp.reRepeatedDash stem = true
    ∧ Shape.startsIn regexp.reRepeatedDash stem = false
    ∧ Shape.endsIn regexp.reRepeatedDash stem = false
    ∧ Shape.restrict Shape.nameChar stem
      = Shape.restrict Shape.nameChar (url.Host u)
        +:+ Shape.restrict Shape.nameChar (path.Base (url.Path u)).
Proof.
  exists (safeName (url.Host u +:+ "-" +:+ path.Base (url.Path u))).
  split; [apply basename_txt|].
  destruct (safeName_shape (url.Host u +:+ "-" +:+ path.Base (url.Path u)))
    as (Hall & Hno & Hstart & Hend).
  repeat (split; [done|]).
  by rewrite safeName_restrict, restrict_app.
Qed.

(** X2: the names that lines 106-107 leave as they are, are exactly those
    of the safe shape (characters of [0-9a-zA-Z_-], no two dashes side by
    side, no dash at either end); hence making a name safe twice is the same
    as making it safe once. *)
Theorem safeName_fixed_iff (name : string) :
  (safeName name = name
   ↔ Str.all Shape.fileChar name = true
     ∧ Shape.noRepeat regexp.reRepeatedDash name = true
     ∧ Shape.startsIn regexp.reRepeatedDash name = false
     ∧ Shape.endsIn regexp.reRepeatedDash name = false)
  ∧ safeName (safeName name) = safeName name.
Proof.
  split; [split|].
  - intros <-. apply safeName_shape.
  - intros (Hall & Hno & Hstart & Hend). by apply safeName_fixed.
  - destruct (safeName_shape name) as (Hall & Hno & Hstart & Hend).
    by apply safeName_fixed.
Qed.

End SafeNames.

(** ** The shape of a sanitized query, and its terms *)

Section SanitizedQuery.

Lemma queryChar_cases (c : ascii) :
  Shape.queryChar c = negb (Spec.gap c) || Ascii.eqb c " "
  ∧ (Ascii.eqb c " " = true → Spec.gap c = true)
  ∧ (Shape.queryChar c = true → Spec.gap c = Ascii.eqb c " ").
Proof. by_byte c. Qed.

(** On a text of query characters, the gaps are the spaces. *)
Lemma noRepeat_queryChar (s : string) :
  Str.all Shape.queryChar s = true →
  Shape.noRepeat Spec.gap s = Shape.noRepeat (Ascii.eqb " ") s.
Proof.
  induction s as [|c s IH]; [done|].
  intros [Hc Hs]%andb_true_iff. simpl. rewrite (IH Hs). f_equal.
  destruct s as [|e s]; [done|].
  simpl in Hs. apply andb_true_iff in Hs as [He _].
  destruct (queryChar_cases c) as (_ & _ & Hgc).
  destruct (queryChar_cases e) as (_ & _ & Hge).
  by rewrite (Hgc Hc), (Hge He), (Ascii.eqb_sym c), (Ascii.eqb_sym e).
Qed.

Lemma sanitizeQuery_runs (q : string) :
  sanitizeQuery q = regexp.replaceRuns Spec.gap false q " ".
Proof.
  unfold sanitizeQuery, regexp.ReplaceAllStringPlus. apply sanitizeQuery_gaps.
Qed.

Lemma sanitizeQuery_shape (q : string) :
  Str.all Shape.queryChar (sanitizeQuery q) = true
  ∧ Shape.noRepeat (Ascii.eqb " ") (sanitizeQuery q) = true.
Proof.
  assert (Hall : Str.all Shape.queryChar (sanitizeQuery q) = true).
  { apply sanitizeQuery_all. }
  split; [done|]. rewrite <- (noRepeat_queryChar _ Hall), sanitizeQuery_runs.
  by apply (replaceRuns_noRepeat Spec.gap " " false).
Qed.

Lemma sanitizeQuery_fixed (q : string) :
  Str.all Shape.queryChar q = true →
  Shape.noRepeat (Ascii.eqb " ") q = true →
  sanitizeQuery q = q.
Proof.
  intros Hall Hno. rewrite sanitizeQuery_runs.
  apply (replaceRuns_id Spec.gap " ").
  - revert Hall. apply StrFacts.all_impl. intros c.
    destruct (queryChar_cases c) as (-> & _ & _). by rewrite Ascii.eqb_sym.
  - by rewrite noRepeat_queryChar.
Qed.

(** X3: whatever the raw query, the sanitized query holds only characters
    of [0-9a-zA-Z.] and spaces, and no two spaces side by side: no quote, no
    [%], no [_], no control character reaches the conditions of the search.
    The queries that lines 279-280 leave as they are, are exactly those of
    this shape, so sanitizing twice is the same as sanitizing once. *)
Theorem sanitizeQuery_fixed_iff (q : string) :
  Str.all Shape.queryChar (sanitizeQuery q) = true
  ∧ Shape.noRepeat (Ascii.eqb " ") (sanitizeQuery q) = true
  ∧ (sanitizeQuery q = q
     ↔ Str.all Shape.queryChar q = true
       ∧ Shape.noRepeat (Ascii.eqb " ") q = true)
  ∧ sanitizeQuery (sanitizeQuery q) = sanitizeQuery q.
Proof.
  destruct (sanitizeQuery_shape q) as [Hall Hno].
  split; [done|]. split; [done|]. split; [split|].
  - by intros <-.
  - intros [? ?]. by apply sanitizeQuery_fixed.
  - by apply sanitizeQuery_fixed.
Qed.

(** The pieces of a split at the spaces: the first one is empty when the
    text is empty or starts with a space; one of the others is empty when
    the text ends with a space or has two spaces side by side. *)
Lemma Split_empty_piece (s : string) :
  ∃ piece pieces,
    strings.Split s " " = piece :: pieces
    ∧ (piece = "" ↔ s = "" ∨ Shape.startsIn (Ascii.eqb " ") s = true)
    ∧ ("" ∈ pieces
       ↔ Shape.endsIn (Ascii.eqb " ") s = true
         ∨ Shape.noRepeat (Ascii.eqb " ") s = false).
Proof.
  induction s as [|c s IH].
  - exists "", []. split; [done|]. split; [by split; auto|].
    split; [by intros ?%elem_of_nil | by intros [?|?]].
  - destruct IH as (piece & pieces & HSplit & Hpiece & Hpieces).
    simpl strings.Split. rewrite HSplit.
    destruct (Ascii.eqb c " ") eqn:Hc.
    + apply Ascii.eqb_eq in Hc as ->.
      exists "", (piece :: pieces). split; [done|]. split.
      { split; [by right | done]. }
      rewrite elem_of_cons, Hpieces.
      destruct s as [|d s].
      * simpl in HSplit. injection HSplit as <- <-.
        cbn [Shape.endsIn]. by intuition.
      * assert (Hd : piece = "" ↔ Ascii.eqb " " d = true).
        { rewrite Hpiece. cbn [Shape.startsIn]. by intuition. }
        cbn [Shape.endsIn Shape.noRepeat Shape.startsIn].
        change (Ascii.eqb " " " ") with true.
        destruct (Ascii.eqb " " d); cbn [andb negb].
        -- split; [by right | left; symmetry; by apply Hd].
        -- split; [|tauto].
           intros [Hempty | H]; [|done]. symmetry in Hempty.
           by apply Hd in Hempty.
    + exists (String c piece), pieces. split; [done|]. split.
      { split; [done|]. intros [? | Hstart]; [done|].
        cbn [Shape.startsIn] in Hstart. rewrite Ascii.eqb_sym in Hstart.
        congruence. }
      rewrite Hpieces. rewrite Ascii.eqb_sym in Hc.
      destruct s as [|d s]; cbn [Shape.endsIn Shape.noRepeat]; rewrite Hc;
        [by intuition | done].
Qed.

(** The start and the end of a sanitized query. *)
Lemma replaceRuns_gap_nil (q : string) :
  regexp.replaceRuns Spec.gap false q " " = "" → q = "".
Proof. destruct q as [|c q]; [done|]. simpl. by destruct (Spec.gap c). Qed.

Lemma replaceRuns_gap_start (q : string) :
  Shape.startsIn (Ascii.eqb " ") (regexp.replaceRuns Spec.gap false q " ")
  = Shape.startsIn Spec.gap q.
Proof.
  destruct q as [|c q]; [done|]. cbn [regexp.replaceRuns Shape.startsIn].
  destruct (Spec.gap c) eqn:Hc; [done|]. cbn [Shape.startsIn].
  destruct (queryChar_cases c) as (_ & Hspace & _).
  rewrite Ascii.eqb_sym. destruct (Ascii.eqb c " "); [|done].
  by rewrite Hspace in Hc.
Qed.

Lemma replaceRuns_gap_all_nil (q : string) :
  regexp.replaceRuns Spec.gap true q " " = "" ↔ Str.all Spec.gap q = true.
Proof.
  induction q as [|c q IH]; [done|]. simpl.
  destruct (Spec.gap c); [done|]. by split.
Qed.

Lemma all_endsIn (class : ascii → bool) (c : ascii) (s : string) :
  Str.all class (String c s) = true → Shape.endsIn class (String c s) = true.
Proof.
  revert c. induction s as [|d s IH]; intros c; simpl.
  - by rewrite andb_true_r.
  - intros [_ Hs]%andb_true_iff. by apply IH.
Qed.

Lemma endsIn_cons (class : ascii → bool) (c : ascii) (s : string) :
  s ≠ "" → Shape.endsIn class (String c s) = Shape.endsIn class s.
Proof. by destruct s. Qed.

Lemma replaceRuns_gap_end (inrun : bool) (q : string) :
  Shape.endsIn (Ascii.eqb " ") (regexp.replaceRuns Spec.gap inrun q " ")
  = Shape.endsIn Spec.gap q && negb (inrun && Str.all Spec.gap q).
Proof.
  revert inrun. induction q as [|c q IH]; intros inrun; [done|].
  cbn [regexp.replaceRuns Str.all].
  destruct (Spec.gap c) eqn:Hc.
  - destruct (Str.all Spec.gap q) eqn:Hall.
    + pose proof (proj2 (replaceRuns_gap_all_nil q) Hall) as HR.
      rewrite (all_endsIn Spec.gap c q) by (simpl; by rewrite Hc, Hall).
      destruct inrun; rewrite HR; [done|].
      cbn [String.append Shape.endsIn]. done.
    + assert (HR : regexp.replaceRuns Spec.gap true q " " ≠ "").
      { intros HR%replaceRuns_gap_all_nil. congruence. }
      assert (Hq : q ≠ "") by (by intros ->).
      rewrite (endsIn_cons _ c q Hq), andb_false_r, !andb_true_r.
      destruct inrun.
      * rewrite IH. cbn [andb negb]. by rewrite andb_true_r.
      * change (" " +:+ regexp.replaceRuns Spec.gap true q " ")
          with (String " " (regexp.replaceRuns Spec.gap true q " ")).
        rewrite (endsIn_cons _ _ _ HR), IH. cbn [andb negb].
        by rewrite andb_true_r.
  - rewrite !andb_false_r. cbn [negb]. rewrite andb_true_r.
    destruct (queryChar_cases c) as (_ & Hspace & _).
    destruct q as [|d q].
    + cbn [regexp.replaceRuns Shape.endsIn]. rewrite Hc, Ascii.eqb_sym.
      destruct (Ascii.eqb c " "); [|done]. by rewrite Hspace in Hc.
    + assert (HR : regexp.replaceRuns Spec.gap false (String d q) " " ≠ "").
      { by intros HR%replaceRuns_gap_nil. }
      rewrite (endsIn_cons _ _ _ HR), IH, (endsIn_cons _ c (String d q));
        [|done].
      cbn [andb negb]. by rewrite andb_true_r.
Qed.

(** The empty piece of a sanitized query, in terms of the raw query. *)
Lemma Split_sanitized_empty (q : string) :
  "" ∈ strings.Split (sanitizeQuery q) " "
  ↔ q = ""
    ∨ Shape.startsIn Spec.gap q = true
    ∨ Shape.endsIn Spec.gap q = true.
Proof.
  destruct (Split_empty_piece (sanitizeQuery q))
    as (piece & pieces & -> & Hpiece & Hpieces).
  destruct (sanitizeQuery_shape q) as [_ Hno].
  rewrite elem_of_cons, Hpieces, Hno. clear Hpieces Hno.
  assert (Hhead : "" = piece ↔ q = "" ∨ Shape.startsIn Spec.gap q = true).
  { rewrite <- replaceRuns_gap_start, <- sanitizeQuery_runs.
    split.
    - intros Hempty. symmetry in Hempty. apply Hpiece in Hempty as [Hs | Hs].
      + left. rewrite sanitizeQuery_runs in Hs.
        by apply replaceRuns_gap_nil in Hs.
      + by right.
    - intros Hq. symmetry. apply Hpiece.
      destruct Hq as [-> | Hq]; [by left | by right]. }
  rewrite Hhead, sanitizeQuery_runs, replaceRuns_gap_end.
  cbn [andb negb]. rewrite andb_true_r. intuition discriminate.
Qed.

Lemma termCond_inj (term term' : string) :
  termCond term = termCond term' → term = term'.
Proof. unfold termCond. by intros [= _ ->]. Qed.

(** X4: the built query holds the condition of the empty term exactly when
    the raw query starts or ends with a character outside [0-9a-zA-Z.] (a
    blank, or a character the sanitizer replaces), as [foo ], [ foo] and
    [<script>] do. [GET 200] does not, and neither does the empty query, for
    which no condition is built at all. *)
Theorem empty_term_iff (r : http.Request) :
  (∃ conds,
     db.conds (capturesQuery r) = [db.Or conds] ∧ termCond "" ∈ conds)
  ↔ Shape.startsIn Spec.gap (chi.URLParam r "q") = true
    ∨ Shape.endsIn Spec.gap (chi.URLParam r "q") = true.
Proof.
  rewrite capturesQuery_conds.
  pose proof (Split_sanitized_empty (chi.URLParam r "q")) as Hempty.
  pose proof (replaceRuns_gap_nil (chi.URLParam r "q")) as Hnil.
  rewrite <- sanitizeQuery_runs in Hnil.
  destruct (String.eqb_spec (sanitizeQuery (chi.URLParam r "q")) "")
    as [Hq | Hq].
  - rewrite (Hnil Hq). split; [by intros (conds & ? & _) | by intros [?|?]].
  - rewrite searchConds_terms. split.
    + intros (conds & [= <-] & Hcond).
      apply list_elem_of_fmap in Hcond as (term & Heq & Hterm).
      apply termCond_inj in Heq as <-.
      apply Hempty in Hterm as [Hraw | Hedge]; [|exact Hedge].
      rewrite Hraw in Hq. by destruct Hq.
    + intros Hedge. eexists. split; [done|].
      apply list_elem_of_fmap. exists "". split; [done|].
      apply Hempty. by right.
Qed.






End SanitizedQuery.

(** ** The stored texts that load *)

Section HexText.

(** A hexadecimal digit stands for a nibble, which the lower-case table
    writes as the digit in lower case. *)
Lemma fromHexChar_lower (c : ascii) (a : Z) :
  hex.fromHexChar c = Some a →
  0 ≤ a < 16 ∧ hex.digit hex.hextable a = strings.lower c.
Proof.
  destruct c as [[] [] [] [] [] [] [] []]; vm_compute; try done;
    intros [= <-]; by repeat split.
Qed.

Lemma byte_nibbles (a b : Z) :
  0 ≤ a < 16 → 0 ≤ b < 16 →
  Z.shiftr (Str.code (Str.byte (Z.lor (Z.shiftl a 4) b))) 4 = a
  ∧ Z.land (Str.code (Str.byte (Z.lor (Z.shiftl a 4) b))) 15 = b.
Proof.
  intros Ha Hb.
  assert (Hcases : ∀ n, 0 ≤ n < 16 →
    n = 0 ∨ n = 1 ∨ n = 2 ∨ n = 3 ∨ n = 4 ∨ n = 5 ∨ n = 6 ∨ n = 7 ∨ n = 8
    ∨ n = 9 ∨ n = 10 ∨ n = 11 ∨ n = 12 ∨ n = 13 ∨ n = 14 ∨ n = 15) by lia.
  destruct (Hcases a Ha) as [->|[->|[->|[->|[->|[->|[->|[->|[->|[->|[->|[->|
    [->|[->|[->| ->]]]]]]]]]]]]]]];
  destruct (Hcases b Hb) as [->|[->|[->|[->|[->|[->|[->|[->|[->|[->|[->|[->|
    [->|[->|[->| ->]]]]]]]]]]]]]]]; by vm_compute.
Qed.

(** The decoder, two characters at a time. *)
Lemma Decode_pair (c d : ascii) (s : string) :
  hex.Decode (String c (String d s))
  = match hex.fromHexChar c with
    | None => ("", Some (InvalidByteError c))
    | Some a =>
        match hex.fromHexChar d with
        | None => ("", Some (InvalidByteError d))
        | Some b =>
            let '(dst, err) := hex.Decode s in
            (String (Str.byte (Z.lor (Z.shiftl a 4) b)) dst, err)
        end
    end.
Proof. reflexivity. Qed.

Lemma hexText_pair (c d : ascii) (s : string) :
  Shape.hexText (String c (String d s))
  = Shape.isHex c && Shape.isHex d && Shape.hexText s.
Proof.
  unfold Shape.hexText. cbn [String.length Nat.even Str.all].
  by destruct (Shape.isHex c), (Shape.isHex d), (Nat.even _).
Qed.

Lemma isHex_fromHexChar (c : ascii) :
  Shape.isHex c = match hex.fromHexChar c with Some _ => true | None => false end.
Proof. reflexivity. Qed.

(** What the decoder makes of a text: the text is well formed and the bytes
    it stands for, written in lower-case hexadecimal, are the text in lower
    case; or the decoding fails with one of the two errors of
    [encoding/hex]. *)
Lemma Decode_cases (s : string) :
  (∀ t, t = s ∨ (∃ c, t = String c s) →
     match hex.Decode t with
     | (dst, None) =>
         Shape.hexText t = true
         ∧ hex.EncodeToString dst = strings.ToLower t
     | (_, Some err) =>
         Shape.hexText t = false
         ∧ (err = ErrLength
            ∨ ∃ c, err = InvalidByteError c ∧ Shape.isHex c = false)
     end).
Proof.
  induction s as [|d s IH]; intros t [-> | [c ->]].
  - done.
  - cbn [hex.Decode]. pose proof (isHex_fromHexChar c) as Hhex.
    destruct (hex.fromHexChar c); (split; [done|]); [by left|].
    right. by exists c.
  - apply IH. right. by exists d.
  - rewrite Decode_pair, hexText_pair.
    specialize (IH s (or_introl eq_refl)).
    pose proof (isHex_fromHexChar c) as Hhexc.
    pose proof (isHex_fromHexChar d) as Hhexd.
    destruct (hex.fromHexChar c) as [a|] eqn:Hc; rewrite Hhexc.
    2:{ split; [done|]. right. by exists c. }
    destruct (hex.fromHexChar d) as [b|] eqn:Hd; rewrite Hhexd.
    2:{ split; [done|]. right. by exists d. }
    cbn [andb]. destruct (hex.Decode s) as [dst [err|]]; [done|].
    destruct IH as [Hs Hdst]. split; [done|].
    apply fromHexChar_lower in Hc as [Ha Hlc], Hd as [Hb Hld].
    destruct (byte_nibbles a b Ha Hb) as [Hhi Hlo].
    unfold hex.EncodeToString in *. cbn [hex.encodeWith strings.ToLower].
    by rewrite Hhi, Hlo, Hlc, Hld, Hdst.
Qed.

Lemma DecodeString_cases (s : string) :
  match hex.DecodeString s with
  | (dst, None) =>
      Shape.hexText s = true ∧ hex.EncodeToString dst = strings.ToLower s
  | (_, Some err) =>
      Shape.hexText s = false
      ∧ (err = ErrLength
         ∨ ∃ c, err = InvalidByteError c ∧ Shape.isHex c = false)
  end.
Proof. apply (Decode_cases s). by left. Qed.

Context `{W : World}.

(** X5: a row the store returns loads exactly when the texts of its two
    bodies are both hexadecimal text: an even number of digits [0-9a-fA-F],
    of either case. The loaded record then has the row's metadata, and its
    bodies are the bytes whose lower-case hexadecimal writing is the stored
    text in lower case. Otherwise the load fails with an error of
    [encoding/hex]: the length error, or the error of a character that is no
    hexadecimal digit. *)
Theorem getCaptureRecord_hexText (uuid : string) (record : capture.Record_) :
  db.One storage (recordQuery uuid) = inr record →
  if Shape.hexText (capture.RequestBody record)
     && Shape.hexText (capture.Body record)
  then
    ∃ loaded,
      getCaptureRecord uuid = inr loaded
      ∧ capture.Meta loaded = capture.Meta record
      ∧ hex.EncodeToString (capture.RequestBody loaded)
        = strings.ToLower (capture.RequestBody record)
      ∧ hex.EncodeToString (capture.Body loaded)
        = strings.ToLower (capture.Body record)
  else
    ∃ err,
      getCaptureRecord uuid = inl err
      ∧ (err = ErrLength
         ∨ ∃ c, err = InvalidByteError c ∧ Shape.isHex c = false).
Proof.
  intros HOne. unfold getCaptureRecord. rewrite HOne.
  pose proof (DecodeString_cases (capture.RequestBody record)) as Hrequest.
  pose proof (DecodeString_cases (capture.Body record)) as Hbody.
  destruct (hex.DecodeString (capture.RequestBody record))
    as [requestBody [err|]].
  { destruct Hrequest as [-> Herr]. by exists err. }
  destruct Hrequest as [-> Hrequest].
  cbn [andb capture.setRequestBody capture.Body].
  destruct (hex.DecodeString (capture.Body record)) as [body [err|]].
  { destruct Hbody as [-> Herr]. by exists err. }
  destruct Hbody as [-> Hbody]. by eexists.
Qed.

(** X6: the metadata endpoint, for a row the store returns: the reply is
    the JSON of the row's metadata when the stored texts of both bodies are
    hexadecimal text, and a 500 with the status text when one of them is
    not, although the endpoint sends neither body. *)
Theorem recordMetaHandler_reply (w : http.ResponseWriter) (r : http.Request)
    (record : capture.Record_) :
  db.One storage (recordQuery (chi.URLParam r "uuid")) = inr record →
  recordMetaHandler w r
  = if Shape.hexText (capture.RequestBody record)
       && Shape.hexText (capture.Body record)
    then replyJSON w (ofRecordMeta (capture.Meta record))
    else replyCode w http.StatusInternalServerError.
Proof.
  intros HOne. unfold recordMetaHandler, getCaptureRecord. rewrite HOne.
  pose proof (DecodeString_cases (capture.RequestBody record)) as Hrequest.
  pose proof (DecodeString_cases (capture.Body record)) as Hbody.
  destruct (hex.DecodeString (capture.RequestBody record))
    as [requestBody [err|]]; destruct Hrequest as [-> _]; [done|].
  cbn [andb capture.setRequestBody capture.Body].
  destruct (hex.DecodeString (capture.Body record)) as [body [err|]];
    by destruct Hbody as [-> _].
Qed.

End HexText.

(** ** What the endpoints send *)

(** The tests on the flags of a given option set, computed. *)
Ltac flags :=
  repeat match goal with
  | |- context [Z.lor ?a ?b] =>
      let v := eval vm_compute in (Z.lor a b) in change (Z.lor a b) with v
  | |- context [Z.land ?a ?b] =>
      let v := eval vm_compute in (Z.land a b) in change (Z.land a b) with v
  | |- context [?a <? ?b] =>
      let v := eval vm_compute in (a <? b) in change (a <? b) with v
  | |- context [?a =? ?b] =>
      let v := eval vm_compute in (a =? b) in change (a =? b) with v
  end;
  cbn [andb orb].

Section Replies.
Context `{W : World}.

(** X7: the reconstructor on a transaction whose stored URL parses, for any
    option set with exactly one of the two body flags and for any header
    collection: the content is the selected body, preceded, when the wire
    flag is set, by one line [name: value] and a line break per header value
    (names in the order of the [range] statement, the values of a name in
    their order) and by an empty line. With the embed flag the content is
    written as [text/plain]; without it the content is served as a download
    named by the file name of the URL, dated by the end of the
    transaction. *)
Theorem replyBinary_one_body (w : http.ResponseWriter) (r : http.Request)
    (record : capture.Record_) (opts : Z) (u : url.URL) :
  url_Parse (capture.URL (capture.Meta record)) = inr u →
  let request := 0 <? Z.land opts writeRequestBody in
  let response := 0 <? Z.land opts writeResponseBody in
  xorb request response = true →
  let headers :=
    if request then capture.RequestHeader (capture.Meta record)
    else capture.Header (capture.Meta record) in
  let content :=
    (if 0 <? Z.land opts writeWire
     then String.concat "" (Shape.headerLines (rangeHeader headers)) +:+ CRLF
     else "")
    +:+ (if request then capture.RequestBody record
         else capture.Body record) in
  replyBinary w r record opts
  = w ++ (if 0 <? Z.land opts writeEmbed then Shape.inline content
          else Shape.attachment r (basename u)
                 (capture.DateEnd (capture.Meta record)) content).
Proof.
  intros Hurl request response Hone headers content.
  unfold replyBinary.
  assert (Hopts : (opts =? writeNone) = false).
  { apply Z.eqb_neq. intros ->. subst request response.
    by rewrite !Z.land_0_l in Hone. }
  rewrite Hopts, Hurl. fold request response.
  subst content headers. unfold Shape.headerLines.
  destruct request, response; try discriminate Hone;
    destruct (0 <? Z.land opts writeWire); cbn [orb andb];
    rewrite ?writeHeaders_lines; cbn [String.append];
    rewrite ?StrFacts.app_assoc;
    by destruct (0 <? Z.land opts writeEmbed).
Qed.

(** X8: the six content endpoints, for a transaction that loads and whose
    stored URL parses. [/request] and [/response] serve the body as a
    download; [/request/raw] and [/response/raw] serve the header lines, an
    empty line and the body as a download; [/request/embed] and
    [/response/embed] write the body as [text/plain], without the headers.
    The downloads are named by the file name of the URL and dated by the end
    of the transaction. *)
Theorem content_endpoints (w : http.ResponseWriter) (r : http.Request)
    (loaded : capture.Record_) (u : url.URL) :
  getCaptureRecord (chi.URLParam r "uuid") = inr loaded →
  url_Parse (capture.URL (capture.Meta loaded)) = inr u →
  let meta := capture.Meta loaded in
  let download := Shape.attachment r (basename u) (capture.DateEnd meta) in
  let wire (headers : http.Header) :=
    String.concat "" (Shape.headerLines (rangeHeader headers)) +:+ CRLF in
  handler GET_request w r = w ++ download (capture.RequestBody loaded)
  ∧ handler GET_request_raw w r
    = w ++ download (wire (capture.RequestHeader meta)
                       +:+ capture.RequestBody loaded)
  ∧ handler GET_request_embed w r
    = w ++ Shape.inline (capture.RequestBody loaded)
  ∧ handler GET_response w r = w ++ download (capture.Body loaded)
  ∧ handler GET_response_raw w r
    = w ++ download (wire (capture.Header meta) +:+ capture.Body loaded)
  ∧ handler GET_response_embed w r = w ++ Shape.inline (capture.Body loaded).
Proof.
  intros Hload Hurl meta download wire.
  unfold handler, requestContentHandler, requestWireHandler,
    requestEmbedHandler, responseContentHandler, responseWireHandler,
    responseEmbedHandler, recordHandler.
  rewrite Hload. unfold replyBinary. rewrite Hurl.
  subst wire download meta. unfold Shape.headerLines.
  repeat split; flags;
    rewrite ?writeHeaders_lines; cbn [String.append];
    by rewrite ?StrFacts.app_assoc.
Qed.

(** X9: the forms of a reply. Whatever the request, the store, the URL
    parser and the JSON encoder do, every endpoint adds exactly one reply to
    the response, of one of these forms: 500 with its status text; for the
    listing and the metadata endpoint, 200 with the two JSON headers and one
    JSON text; for the two embed endpoints, one inline [text/plain] content;
    for the four other content endpoints, one download, handed to
    [http.ServeContent], which decides the status of that reply itself. No
    handler calls [WriteHeader] with a code other than 200 and 500, hands
    over more than one content, or returns without a reply. *)
Theorem handler_reply_forms (endpoint : route) (w : http.ResponseWriter)
    (r : http.Request) :
  handler endpoint w r = replyCode w http.StatusInternalServerError
  ∨ match endpoint with
    | GET_records | GET_record =>
        ∃ buf,
          handler endpoint w r
          = w ++ [http.HeaderSet "Access-Control-Allow-Origin" "*";
                  http.HeaderSet "Content-Type" "application/json";
                  http.WriteHeader http.StatusOK;
                  http.Write buf]
    | GET_request_embed | GET_response_embed =>
        ∃ content, handler endpoint w r = w ++ Shape.inline content
    | _ =>
        ∃ name modtime content,
          handler endpoint w r = w ++ Shape.attachment r name modtime content
    end.
Proof.
  destruct endpoint;
    unfold handler, capturesHandler, recordMetaHandler,
      requestContentHandler, requestWireHandler, requestEmbedHandler,
      responseContentHandler, responseWireHandler, responseEmbedHandler,
      recordHandler, replyJSON.
  - destruct (db.All storage _) as [err|requests]; [by left|].
    destruct (json_Marshal _) as [err|buf]; [by left | right; by eexists].
  - destruct (getCaptureRecord _) as [err|record]; [by left|].
    destruct (json_Marshal _) as [err|buf]; [by left | right; by eexists].
  - destruct (getCaptureRecord _) as [err|record]; [by left|].
    unfold replyBinary.
    destruct (url_Parse _) as [err|u]; [by left | right; by eexists _, _, _].
  - destruct (getCaptureRecord _) as [err|record]; [by left|].
    unfold replyBinary.
    destruct (url_Parse _) as [err|u]; [by left | right; by eexists _, _, _].
  - destruct (getCaptureRecord _) as [err|record]; [by left|].
    unfold replyBinary.
    destruct (url_Parse _) as [err|u]; [by left | right; by eexists].
  - destruct (getCaptureRecord _) as [err|record]; [by left|].
    unfold replyBinary.
    destruct (url_Parse _) as [err|u]; [by left | right; by eexists _, _, _].
  - destruct (getCaptureRecord _) as [err|record]; [by left|].
    unfold replyBinary.
    destruct (url_Parse _) as [err|u]; [by left | right; by eexists _, _, _].
  - destruct (getCaptureRecord _) as [err|record]; [by left|].
    unfold replyBinary.
    destruct (url_Parse _) as [err|u]; [by left | right; by eexists].
Qed.

End Replies.

(** ** The page asked for, the pages there are, and the query *)

Section PageNumbers.

(** The digits of a number written in decimal, read by the digit loop. *)
Lemma of_uint_acc_le (d : Decimal.uint) (acc : positive) :
  (acc ≤ Pos.of_uint_acc d acc)%positive.
Proof.
  revert acc. induction d as [|d IH|d IH|d IH|d IH|d IH|d IH|d IH|d IH|d IH
                              |d IH]; intros acc; simpl; [lia|..];
    (etrans; [|apply IH]); lia.
Qed.

(** The value of a digit character, computed. *)
Ltac digit :=
  repeat match goal with
  | |- context [regexp.isDigit ?c] =>
      let v := eval vm_compute in (regexp.isDigit c) in
      change (regexp.isDigit c) with v
  | |- context [Str.code ?c - Str.code ?z] =>
      let v := eval vm_compute in (Str.code c - Str.code z) in
      change (Str.code c - Str.code z) with v
  end.

Lemma parseDigits_of_uint_acc (d : Decimal.uint) (acc : positive) :
  Z.pos acc < 2 ^ 64 →
  strconv.parseDigits (Z.pos acc) (NilEmpty.string_of_uint d)
  = if Z.pos (Pos.of_uint_acc d acc) <? 2 ^ 64
    then inr (Z.pos (Pos.of_uint_acc d acc))
    else inl ErrRange.
Proof.
  assert (Hstep : ∀ (d : Decimal.uint) (acc : positive) (k : Z) (acc' : positive),
    (∀ acc, Z.pos acc < 2 ^ 64 →
       strconv.parseDigits (Z.pos acc) (NilEmpty.string_of_uint d)
       = if Z.pos (Pos.of_uint_acc d acc) <? 2 ^ 64
         then inr (Z.pos (Pos.of_uint_acc d acc))
         else inl ErrRange) →
    Z.pos acc * 10 + k = Z.pos acc' →
    (if 2 ^ 64 <=? Z.pos acc * 10 + k then inl ErrRange
     else strconv.parseDigits (Z.pos acc * 10 + k)
            (NilEmpty.string_of_uint d))
    = if Z.pos (Pos.of_uint_acc d acc') <? 2 ^ 64
      then inr (Z.pos (Pos.of_uint_acc d acc'))
      else inl ErrRange).
  { clear. intros d acc k acc' IH ->.
    destruct (Z.leb_spec (2 ^ 64) (Z.pos acc')) as [Hbig | Hfit].
    - pose proof (of_uint_acc_le d acc') as Hle.
      destruct (Z.ltb_spec (Z.pos (Pos.of_uint_acc d acc')) (2 ^ 64)); [lia|].
      done.
    - by apply IH. }
  revert acc. induction d as [|d IH|d IH|d IH|d IH|d IH|d IH|d IH|d IH|d IH
                              |d IH]; intros acc Hacc;
    cbn [NilEmpty.string_of_uint strconv.parseDigits Pos.of_uint_acc];
    [by destruct (Z.ltb_spec (Z.pos acc) (2 ^ 64)); [|lia] |..];
    digit; cbv iota; (apply Hstep; [done | lia]).
Qed.

Lemma parseDigits_of_uint (d : Decimal.uint) :
  strconv.parseDigits 0 (NilEmpty.string_of_uint d)
  = if Z.of_N (Pos.of_uint d) <? 2 ^ 64
    then inr (Z.of_N (Pos.of_uint d))
    else inl ErrRange.
Proof.
  induction d as [|d IH|d IH|d IH|d IH|d IH|d IH|d IH|d IH|d IH|d IH];
    cbn [NilEmpty.string_of_uint strconv.parseDigits Pos.of_uint]; [done|..];
    digit; cbv iota; change (0 * 10 + ?k) with k;
    cbn [Z.leb Z.compare Z.pow Z.pow_pos Pos.iter Z.mul Pos.mul
         Pos.compare Pos.compare_cont N.succ_pos Z.of_N];
    [exact IH |..]; by apply parseDigits_of_uint_acc.
Qed.

(** A number written in decimal, read by [strconv.ParseUint]. *)
Lemma ParseUint_decimal (n : Z) :
  strconv.ParseUint (NilZero.string_of_int (Z.to_int n))
  = if n <? 0 then inl ErrSyntax
    else if n <? 2 ^ 64 then inr n
    else inl ErrRange.
Proof.
  destruct n as [|p|p]; [done| |].
  - cbn [Z.to_int NilZero.string_of_int]. change (Z.pos p <? 0) with false.
    cbv iota.
    pose proof (DecimalPos.Unsigned.of_to p) as Hp.
    pose proof (parseDigits_of_uint (Pos.to_uint p)) as Hparse.
    rewrite Hp in Hparse. cbn [Z.of_N] in Hparse.
    unfold strconv.ParseUint, NilZero.string_of_uint.
    destruct (Pos.to_uint p) eqn:Hd; [done|..];
      cbn [NilEmpty.string_of_uint String.eqb] in *; exact Hparse.
  - cbn [Z.to_int NilZero.string_of_int]. done.
Qed.

(** X10: the page of a request whose [page] parameter is an integer [n]
    written in decimal: [n] itself from 1 to [2^64 - 1]; page 1 for 0, for a
    negative number and for a number from [2^64] on. *)
Theorem requestedPage_decimal (r : http.Request) (n : Z) :
  chi.URLParam r "page" = NilZero.string_of_int (Z.to_int n) →
  requestedPage r = if (1 <=? n) && (n <? 2 ^ 64) then n else 1.
Proof.
  intros Hpage. unfold requestedPage. rewrite Hpage, ParseUint_decimal.
  destruct (Z.ltb_spec n 0) as [Hneg | Hpos].
  { destruct (Z.leb_spec 1 n); [lia | done]. }
  destruct (Z.ltb_spec n (2 ^ 64)) as [Hfit | Hbig].
  - unfold uint. rewrite Z.mod_small by lia.
    destruct (Z.ltb_spec n 1), (Z.leb_spec 1 n); try lia; done.
  - by rewrite andb_false_r.
Qed.

End PageNumbers.

Section Listing.

(** C4 on the requests the router delivers. The pattern of the listing has
    no placeholder, so that [chi.URLParam(r, "page")] (line 283) finds no
    page, whatever the query string of the request: the handler serves page
    1 from offset 0. For [GET /records?page=2] over 60 records the listing
    holds the records 1 to 50 and reports page 1 of 2 pages, where the
    records of page 2, from the offset 50 on, are the records 51 to 60. *)
Theorem capturesHandler_page_unbound :
  (∀ patterns,
     (patterns, GET_records) ∈ flat_map (registered []) startServices →
     placeholders patterns = [])
  ∧ (∀ r : http.Request,
       http.URLParams r !! "page" = None →
       requestedPage r = 1 ∧ db.offset (capturesQuery r) = Some 0)
  ∧ @capturesHandler (example.world (example.rows 60)) [] (example.request [])
    = @replyJSON (example.world (example.rows 60)) []
        (ofPullResponse
           (mkPullResponse
              ((λ i, capture.Meta
                       (example.get (1 + Z.of_nat i) "http://a.b/c?d=e" ""
                          "ok")) <$> seq 0 50)
              2 1))
  ∧ take (Z.to_nat pageSize)
      (drop (Z.to_nat (pageSize * (2 - 1)))
         (merge_sort table.byID (example.rows 60)))
    = (λ i, example.get (51 + Z.of_nat i) "http://a.b/c?d=e" "" "ok")
        <$> seq 0 10.
Proof.
  split; [|split; [|split]].
  - intros patterns Hroute.
    assert (Hall :
      Forall (λ pe : list string * route,
                pe.2 = GET_records → placeholders pe.1 = [])
        (flat_map (registered []) startServices)).
    { repeat constructor; discriminate. }
    rewrite Forall_forall in Hall. by apply (Hall _ Hroute).
  - intros r Hpage.
    assert (Hone : requestedPage r = 1).
    { unfold requestedPage, chi.URLParam. by rewrite Hpage. }
    split; [done|]. unfold capturesQuery. rewrite Hone.
    by destruct (negb _).
  - by vm_compute.
  - by vm_compute.
Qed.

(** X11: for a count of rows from 0 up to [2^52], the number of pages
    computed in float64 (line 327) is the exact ceiling of the count over
    the page size: the pages are just enough to hold the rows; an empty
    listing has no page. *)
Theorem totalPages_covers (c : Z) :
  0 ≤ c < 2 ^ 52 →
  totalPages c = (c + pageSize - 1) / pageSize
  ∧ pageSize * (totalPages c - 1) < c ≤ pageSize * totalPages c
  ∧ (totalPages c = 0 ↔ c = 0).
Proof.
  intros Hc. rewrite (totalPages_ceil c Hc). unfold pageSize.
  replace (c + 50 - 1) with (c + 49) by lia.
  pose proof (Z.div_mod (c + 49) 50 ltac:(lia)) as Hdiv.
  pose proof (Z.mod_pos_bound (c + 49) 50 ltac:(lia)) as Hmod.
  repeat split; lia.
Qed.

(** Above [2^53] the float64 computation can miss the ceiling: a count of
    9007199254741001 rows gets one page too few. *)
Lemma totalPages_inexact :
  totalPages 9007199254741001 = 180143985094820
  ∧ (9007199254741001 + pageSize - 1) / pageSize = 180143985094821.
Proof. split; by vm_compute. Qed.

Lemma Result_eta (res : db.Result) :
  res = db.mkResult (db.conds res) (db.columns res) (db.orderBy res)
          (db.limit res) (db.offset res).
Proof. by destruct res. Qed.

(** X12: the query of the listing, while [pageSize * (page - 1)] fits a
    signed 64-bit integer: all columns, ordered by [id], at most 50 rows
    from the offset [50 * (page - 1)] on. A query string that is empty once
    sanitized puts no condition; otherwise the one condition is the union,
    over the terms in their order, of the unions of the seven conditions of
    a term. *)
Theorem capturesQuery_in_range (r : http.Request) :
  pageSize * (requestedPage r - 1) < 2 ^ 63 →
  let q := sanitizeQuery (chi.URLParam r "q") in
  capturesQuery r
  = db.mkResult
      (if String.eqb q "" then []
       else [db.Or (termCond <$> strings.Split q " ")])
      [] ["id"] (Some pageSize) (Some (pageSize * (requestedPage r - 1))).
Proof.
  intros Hfit q. rewrite (Result_eta (capturesQuery r)).
  rewrite capturesQuery_conds, (capturesQuery_offset r Hfit).
  destruct (capturesQuery_limit r) as [-> ->].
  rewrite searchConds_terms. fold q. f_equal.
  unfold capturesQuery. by destruct (negb _).
Qed.

(** X13: the reply of the listing when the store answers both the rows and
    their count [c], with [c] from 0 up to [2^52]: the JSON of the rows as
    the store returned them, of the ceiling of [c] over 50 as the number of
    pages, and of the page asked for, which is at least 1 and below [2^64]
    whatever the request. *)
Theorem capturesHandler_reply `{W : World} (w : http.ResponseWriter)
    (r : http.Request) (requests : list capture.RecordMeta) (c : Z) :
  db.All storage (capturesQuery r) = inr requests →
  db.Count storage (capturesQuery r) = inr c →
  0 ≤ c < 2 ^ 52 →
  capturesHandler w r
  = replyJSON w
      (ofPullResponse
         (mkPullResponse requests ((c + 49) / 50) (requestedPage r)))
  ∧ 1 ≤ requestedPage r < 2 ^ 64.
Proof.
  intros HAll HCount Hc. split; [|apply requestedPage_range].
  unfold capturesHandler. by rewrite HAll, HCount, (totalPages_ceil c Hc).
Qed.

(** X14: the patterns [startServices] registers bind no URL parameter but
    [uuid]: neither [q] nor [page]. And for a request in which the router
    bound neither, the listing is its first page with no condition: page 1,
    offset 0, 50 rows at most, ordered by [id]. *)
Theorem routes_bind_uuid_only :
  (∀ patterns endpoint name,
     (patterns, endpoint) ∈ flat_map (registered []) startServices →
     name ∈ placeholders patterns →
     name = "uuid")
  ∧ (∀ r : http.Request,
       http.URLParams r !! "q" = None →
       http.URLParams r !! "page" = None →
       requestedPage r = 1
       ∧ capturesQuery r
         = db.mkResult [] [] ["id"] (Some pageSize) (Some 0)).
Proof.
  split.
  - assert (Hall :
      Forall (λ pe : list string * route,
                Forall (λ name, name = "uuid") (placeholders pe.1))
        (flat_map (registered []) startServices)).
    { repeat constructor. }
    intros patterns endpoint name Hroute Hname.
    rewrite Forall_forall in Hall. specialize (Hall _ Hroute).
    rewrite Forall_forall in Hall. by apply Hall.
  - intros r Hq Hpage.
    unfold requestedPage, capturesQuery, requestedPage, chi.URLParam.
    by rewrite Hq, Hpage.
Qed.

End Listing.

(** ** The order of the header lines *)

Section WireLines.
Context `{W : World}.

(** X15: the header block that [replyBinary] writes does not depend on the
    order in which [range] visits the selected header collection, but for
    the order of its lines. When the visit goes through every entry once,
    the content of the reply is a sequence of lines, an empty line and the
    selected body; a line is among them exactly when it is [name: value] and
    a line break for a value stored under the name, and it is there as many
    times as the collection holds it. *)
Theorem wire_header_lines (r : http.Request) (record : capture.Record_)
    (opts : Z) (u : url.URL) :
  url_Parse (capture.URL (capture.Meta record)) = inr u →
  0 < Z.land opts writeWire →
  let request := 0 <? Z.land opts writeRequestBody in
  let response := 0 <? Z.land opts writeResponseBody in
  xorb request response = true →
  let headers :=
    if request then capture.RequestHeader (capture.Meta record)
    else capture.Header (capture.Meta record) in
  rangeHeader headers ≡ₚ map_to_list headers →
  ∃ lines,
    http.contents (replyBinary [] r record opts)
    = [String.concat "" lines +:+ CRLF
       +:+ (if request then capture.RequestBody record
            else capture.Body record)]
    ∧ lines ≡ₚ Shape.headerLines (map_to_list headers)
    ∧ ∀ line,
        line ∈ lines
        ↔ ∃ k vv v,
            headers !! k = Some vv ∧ v ∈ vv
            ∧ line = k +:+ ": " +:+ v +:+ CRLF.
Proof.
  intros Hurl Hwire request response Hone headers Hrange.
  exists (Shape.headerLines (rangeHeader headers)).
  split; [|split].
  - by apply (replyBinary_wire_content r record opts u).
  - unfold Shape.headerLines. by apply Permutation_flat_map.
  - intros line. unfold Shape.headerLines.
    rewrite list_elem_of_In, in_flat_map. split.
    + intros ([k vv] & Hentry & Hline).
      apply list_elem_of_In in Hentry, Hline.
      rewrite Hrange in Hentry. apply elem_of_map_to_list in Hentry.
      apply list_elem_of_fmap in Hline as (v & -> & Hv).
      by exists k, vv, v.
    + intros (k & vv & v & Hk & Hv & ->). exists (k, vv). split.
      * apply list_elem_of_In. rewrite Hrange. by apply elem_of_map_to_list.
      * apply list_elem_of_In, list_elem_of_fmap. by exists v.
Qed.

End WireLines.

(** ** The theorems at work *)

(** A transaction with the request headers [{"X-Test": ["1","2"]}] and the
    request body [ping], asked for with its wire headers as a download. *)
Lemma replyBinary_wire_headers_run :
  @replyBinary (example.world []) [] (example.request [])
    (example.get 1 "http://a.b/c?d=e" "ping" "pong")
    (Z.lor writeRequestBody writeWire)
  = [http.HeaderSet "Content-Disposition"
       ("attachment; filename=" +:+ DQUOTE +:+ "a-b-c.txt" +:+ DQUOTE);
     http.ServeContent (example.request []) "" 2000
       ("X-Test: 1" +:+ CRLF +:+ "X-Test: 2" +:+ CRLF +:+ CRLF +:+ "ping")].
Proof.
  apply (@replyBinary_wire_headers (example.world [])
           (λ headers, Permutation_refl (map_to_list headers))
           [] (example.request [])
           (example.get 1 "http://a.b/c?d=e" "ping" "pong")
           (Z.lor writeRequestBody writeWire)
           (url.mkURL "http" "" "a.b" "/c" false "d=e" ""));
    reflexivity.
Defined.

(** The same transaction when its stored URL does not parse: the selected
    headers are those of C1 and the flags are the wire flag and one body
    flag, and the client is sent the status text of a 500. *)
Lemma replyBinary_wire_headers_bad_url :
  let record := example.get 1 ":" "ping" "pong" in
  let opts := Z.lor writeRequestBody writeWire in
  0 < Z.land opts writeWire
  ∧ 0 < Z.land opts writeRequestBody
  ∧ Z.land opts writeResponseBody = 0
  ∧ capture.RequestHeader (capture.Meta record) = {["X-Test" := ["1"; "2"]]}
  ∧ @replyBinary (example.world []) [] (example.request []) record opts
    = [http.WriteHeader 500; http.Write "Internal Server Error"].
Proof. repeat split. Qed.

(** Both body flags at once. *)
Lemma replyBinary_both_bodies_run :
  @replyBinary (example.world []) [] (example.request [])
    (example.get 1 "http://a.b/c?d=e" "ping" "pong")
    (Z.lor writeRequestBody writeResponseBody)
  = [http.WriteHeader 500; http.Write "Internal Server Error"].
Proof.
  apply (@replyBinary_both_bodies (example.world []) [] (example.request [])
           (example.get 1 "http://a.b/c?d=e" "ping" "pong")
           (Z.lor writeRequestBody writeResponseBody));
    reflexivity.
Defined.

(** The wire flag alone, on a transaction whose URL parses: nothing is
    written. *)
Lemma replyBinary_no_body_run :
  @replyBinary (example.world []) [] (example.request [])
    (example.get 1 "http://a.b/c?d=e" "ping" "pong") writeWire
  = [].
Proof.
  apply (@replyBinary_no_body (example.world []) [] (example.request [])
           (example.get 1 "http://a.b/c?d=e" "ping" "pong") writeWire);
    reflexivity.
Defined.

(** The wire flag alone, on a transaction whose URL does not parse: neither
    body flag is set, and a 500 is written. *)
Lemma replyBinary_no_body_bad_url :
  Z.land writeWire writeRequestBody = 0
  ∧ Z.land writeWire writeResponseBody = 0
  ∧ @replyBinary (example.world []) [] (example.request [])
      (example.get 1 ":" "ping" "pong") writeWire
    = [http.WriteHeader 500; http.Write "Internal Server Error"].
Proof. repeat split. Qed.

(** A row whose response body is the odd-length text [4a4]. *)
Lemma getCaptureRecord_corrupt_run :
  ∃ err,
    @getCaptureRecord (example.worldOf (example.only example.corrupt)) "uuid-1"
    = inl err
    ∧ (snd (hex.DecodeString (capture.RequestBody example.corrupt)) = Some err
       ∨ snd (hex.DecodeString (capture.Body example.corrupt)) = Some err).
Proof.
  apply (@getCaptureRecord_corrupt
           (example.worldOf (example.only example.corrupt)) "uuid-1"
           example.corrupt).
  - reflexivity.
  - right. vm_compute. discriminate.
Defined.

(** A store whose count fails while the listing is fetched: the listing is
    served, with status 200 and [pages] at 0. *)
Lemma capturesHandler_count_failure_served :
  let W := example.worldOf (example.countFails []) in
  db.Count (@storage W) (capturesQuery (example.request []))
  = inl (errorString "database is locked")
  ∧ @handler W GET_records [] (example.request [])
    = @replyJSON W [] (ofPullResponse (mkPullResponse [] 0 1))
  ∧ http.status (@handler W GET_records [] (example.request [])) = Some 200.
Proof. repeat split. Qed.

(** A store that is down: the listing and the content endpoints reply 500. *)
Lemma storeDown_run :
  let W := example.worldOf example.storeDown in
  @capturesHandler W [] (example.request [])
  = [http.WriteHeader 500; http.Write "Internal Server Error"]
  ∧ @recordMetaHandler W [] (example.request [("uuid", "uuid-1")])
    = [http.WriteHeader 500; http.Write "Internal Server Error"]
  ∧ @responseWireHandler W [] (example.request [("uuid", "uuid-1")])
    = [http.WriteHeader 500; http.Write "Internal Server Error"].
Proof. repeat split. Qed.

(** The listing and the loader over a table of 120 rows: page 3 holds the
    last twenty rows, of three pages. *)
Lemma capturesHandler_last_page :
  @capturesHandler (example.world (example.rows 120)) []
    (example.request [("page", "3")])
  = @replyJSON (example.world (example.rows 120)) []
      (ofPullResponse
         (mkPullResponse
            ((λ i, capture.Meta
                     (example.get (101 + Z.of_nat i) "http://a.b/c?d=e" ""
                        "ok")) <$> seq 0 20)
            3 3)).
Proof. by vm_compute. Qed.

(** ** The further theorems at work *)

(** A row whose bodies are stored as [70696E67] and [706f6e67], in upper
    and in lower case: it loads as the bytes of [ping] and [pong]. *)
Lemma getCaptureRecord_hexText_run :
  ∃ loaded,
    @getCaptureRecord
      (example.worldOf
         (example.only (example.get 1 "http://a.b/c?d=e" "70696E67" "706f6e67")))
      "uuid-1"
    = inr loaded
    ∧ capture.Meta loaded
      = capture.Meta (example.get 1 "http://a.b/c?d=e" "70696E67" "706f6e67")
    ∧ hex.EncodeToString (capture.RequestBody loaded) = "70696e67"
    ∧ hex.EncodeToString (capture.Body loaded) = "706f6e67".
Proof.
  exact (@getCaptureRecord_hexText
           (example.worldOf
              (example.only
                 (example.get 1 "http://a.b/c?d=e" "70696E67" "706f6e67")))
           "uuid-1"
           (example.get 1 "http://a.b/c?d=e" "70696E67" "706f6e67")
           eq_refl).
Defined.

(** The metadata of a row whose response body is the odd-length text
    [4a4]. *)
Lemma recordMetaHandler_reply_run :
  @recordMetaHandler (example.worldOf (example.only example.corrupt)) []
    (example.request [("uuid", "uuid-1")])
  = [http.WriteHeader 500; http.Write "Internal Server Error"].
Proof.
  exact (@recordMetaHandler_reply
           (example.worldOf (example.only example.corrupt)) []
           (example.request [("uuid", "uuid-1")]) example.corrupt eq_refl).
Defined.

(** The response with its wire headers, embedded: a set of options that no
    endpoint uses. *)
Lemma replyBinary_one_body_run :
  @replyBinary (example.world []) [] (example.request [])
    (example.get 1 "http://a.b/c?d=e" "ping" "pong")
    (Z.lor (Z.lor writeResponseBody writeWire) writeEmbed)
  = [http.HeaderSet "Content-Type" "text/plain; charset=utf-8";
     http.Write ("Content-Type: text/html" +:+ CRLF +:+ CRLF +:+ "pong")].
Proof.
  exact (@replyBinary_one_body (example.world []) [] (example.request [])
           (example.get 1 "http://a.b/c?d=e" "ping" "pong")
           (Z.lor (Z.lor writeResponseBody writeWire) writeEmbed)
           (url.mkURL "http" "" "a.b" "/c" false "d=e" "")
           eq_refl eq_refl).
Defined.

(** The six content endpoints on a table of one row. *)
Lemma content_endpoints_run :
  @handler (example.world [example.get 1 "http://a.b/c?d=e" "ping" "pong"])
    GET_request [] (example.request [("uuid", "uuid-1")])
  = Shape.attachment (example.request [("uuid", "uuid-1")]) "a-b-c.txt" 2000
      "ping"
  ∧ @handler (example.world [example.get 1 "http://a.b/c?d=e" "ping" "pong"])
      GET_request_raw [] (example.request [("uuid", "uuid-1")])
    = Shape.attachment (example.request [("uuid", "uuid-1")]) "a-b-c.txt" 2000
        ("X-Test: 1" +:+ CRLF +:+ "X-Test: 2" +:+ CRLF +:+ CRLF +:+ "ping")
  ∧ @handler (example.world [example.get 1 "http://a.b/c?d=e" "ping" "pong"])
      GET_request_embed [] (example.request [("uuid", "uuid-1")])
    = Shape.inline "ping"
  ∧ @handler (example.world [example.get 1 "http://a.b/c?d=e" "ping" "pong"])
      GET_response [] (example.request [("uuid", "uuid-1")])
    = Shape.attachment (example.request [("uuid", "uuid-1")]) "a-b-c.txt" 2000
        "pong"
  ∧ @handler (example.world [example.get 1 "http://a.b/c?d=e" "ping" "pong"])
      GET_response_raw [] (example.request [("uuid", "uuid-1")])
    = Shape.attachment (example.request [("uuid", "uuid-1")]) "a-b-c.txt" 2000
        ("Content-Type: text/html" +:+ CRLF +:+ CRLF +:+ "pong")
  ∧ @handler (example.world [example.get 1 "http://a.b/c?d=e" "ping" "pong"])
      GET_response_embed [] (example.request [("uuid", "uuid-1")])
    = Shape.inline "pong".
Proof.
  exact (@content_endpoints
           (example.world [example.get 1 "http://a.b/c?d=e" "ping" "pong"])
           [] (example.request [("uuid", "uuid-1")])
           (example.get 1 "http://a.b/c?d=e" "ping" "pong")
           (url.mkURL "http" "" "a.b" "/c" false "d=e" "")
           eq_refl eq_refl).
Defined.

(** Page 42, and the pages of 101 rows. *)
Lemma requestedPage_decimal_run :
  requestedPage (example.request [("page", "42")]) = 42.
Proof.
  exact (requestedPage_decimal (example.request [("page", "42")]) 42 eq_refl).
Defined.

Lemma totalPages_covers_run :
  totalPages 101 = (101 + pageSize - 1) / pageSize
  ∧ pageSize * (totalPages 101 - 1) < 101 ≤ pageSize * totalPages 101
  ∧ (totalPages 101 = 0 ↔ 101 = 0).
Proof. apply (totalPages_covers 101). split; [discriminate | reflexivity]. Defined.

(** The query of page 3 of the search for [GET 200]. *)
Lemma capturesQuery_in_range_run :
  capturesQuery (example.request [("q", "GET 200"); ("page", "3")])
  = db.mkResult [db.Or [termCond "GET"; termCond "200"]] [] ["id"]
      (Some 50) (Some 100).
Proof.
  exact (capturesQuery_in_range
           (example.request [("q", "GET 200"); ("page", "3")]) eq_refl).
Defined.

(** A store that holds one row and counts one. *)
Lemma capturesHandler_reply_run :
  @capturesHandler
    (example.worldOf
       (example.only (example.get 7 "http://a.b/c?d=e" "" "")))
    [] (example.request [("page", "2")])
  = @replyJSON
      (example.worldOf
         (example.only (example.get 7 "http://a.b/c?d=e" "" "")))
      []
      (ofPullResponse
         (mkPullResponse
            [capture.Meta (example.get 7 "http://a.b/c?d=e" "" "")] 1 2))
  ∧ 1 ≤ requestedPage (example.request [("page", "2")]) < 2 ^ 64.
Proof.
  apply (@capturesHandler_reply
           (example.worldOf
              (example.only (example.get 7 "http://a.b/c?d=e" "" "")))
           [] (example.request [("page", "2")])
           [capture.Meta (example.get 7 "http://a.b/c?d=e" "" "")] 1);
    [reflexivity | reflexivity | split; [discriminate | reflexivity]].
Defined.

(** The request with its wire headers: the one header of two values. *)
Lemma wire_header_lines_run :
  ∃ lines,
    http.contents
      (@replyBinary (example.world []) [] (example.request [])
         (example.get 1 "http://a.b/c?d=e" "ping" "pong")
         (Z.lor writeRequestBody writeWire))
    = [String.concat "" lines +:+ CRLF +:+ "ping"]
    ∧ lines
      ≡ₚ Shape.headerLines
           (map_to_list ({["X-Test" := ["1"; "2"]]} : http.Header))
    ∧ ∀ line,
        line ∈ lines
        ↔ ∃ k vv v,
            ({["X-Test" := ["1"; "2"]]} : http.Header) !! k = Some vv
            ∧ v ∈ vv
            ∧ line = k +:+ ": " +:+ v +:+ CRLF.
Proof.
  exact (@wire_header_lines (example.world []) (example.request [])
           (example.get 1 "http://a.b/c?d=e" "ping" "pong")
           (Z.lor writeRequestBody writeWire)
           (url.mkURL "http" "" "a.b" "/c" false "d=e" "")
           eq_refl eq_refl eq_refl (Permutation_refl _)).
Defined.

(** A row whose response body came back in the upper-case digits of the
    store and whose request body in lower-case digits. *)
Lemma getCaptureRecord_roundtrip_run :
  @getCaptureRecord
    (example.worldOf
       (example.only
          (capture.mkRecord
             (capture.Meta (example.get 1 "http://a.b/c?d=e" "" ""))
             "4A6F" "6a6f")))
    "uuid-1"
  = inr (capture.mkRecord
           (capture.Meta (example.get 1 "http://a.b/c?d=e" "" "")) "Jo" "jo").
Proof.
  apply (@getCaptureRecord_roundtrip
           (example.worldOf
              (example.only
                 (capture.mkRecord
                    (capture.Meta (example.get 1 "http://a.b/c?d=e" "" ""))
                    "4A6F" "6a6f")))
           "uuid-1" (capture.Meta (example.get 1 "http://a.b/c?d=e" "" ""))
           "Jo" "jo" "4A6F" "6a6f").
  - right. reflexivity.
  - left. reflexivity.
  - reflexivity.
Defined.

